(** * File Integrity Monitor (fim.py): shallow embedding and verification

    The development follows [src/fim.py].  Python values that the monitor
    stores or reads back from its baseline file are JSON-shaped and are
    modelled by the type [json]; a Python [dict] is an insertion-ordered
    association list; a Python [set] of file names is a [gset string];
    exceptions are values of type [exn] carried by the [result] monad.
    The operating system is an oracle: every file carries the outcome of
    each system call the monitor performs on it, so that races (a file
    vanishing between [os.stat] and [open]) are inputs like any other.
    Paths are POSIX paths, as in the specification: [os.path] is
    [posixpath].  Logging and console output are not modelled, except
    where a message is the observable carrier of an error and for the
    warnings of [generate_alert] and [report_changes], which are what
    these two are for; the counters of [scan_directory], which only feed
    the log, are left out with it.  The loop of [monitor_realtime] runs
    over a list of successive states of the file system, one per cycle,
    and ends with the list, as it does when the user interrupts the
    sleep that follows a cycle. *)

From Stdlib Require Import ZArith Ascii Strings.Byte.
From Stdlib Require Import Floats.SpecFloat.
From stdpp Require Import base option list strings gmap pretty.

Set Default Proof Using "Type".
Set Warnings "-register-all,-clear-no-such-hyp".
#[local] Open Scope Z_scope.

(** ** Python exceptions *)

Module Py.

(** The exception classes the monitor raises or handles.  [OSError] stands
    for any [OSError]/[IOError] that is neither a [PermissionError] nor a
    [FileNotFoundError]; [RuntimeError] for an [Exception] of any other
    class. *)
Inductive exn : Type :=
| PermissionError (msg : string)
| FileNotFoundError (msg : string)
| OSError (msg : string)
| JSONDecodeError (msg : string)
| ValueError (msg : string)
| KeyError (key : string)
| TypeError (msg : string)
| AttributeError (msg : string)
| RuntimeError (msg : string)
| KeyboardInterrupt.

(** [isinstance(e, Exception)]: everything but [KeyboardInterrupt], which
    derives from [BaseException] only. *)
Definition is_Exception (e : exn) : bool :=
  match e with KeyboardInterrupt => false | _ => true end.

(** [isinstance(e, OSError)]; [IOError] is an alias of [OSError]. *)
Definition is_OSError (e : exn) : bool :=
  match e with
  | PermissionError _ | FileNotFoundError _ | OSError _ => true
  | _ => false
  end.

Definition is_PermissionError (e : exn) : bool :=
  match e with PermissionError _ => true | _ => false end.

Definition is_FileNotFoundError (e : exn) : bool :=
  match e with FileNotFoundError _ => true | _ => false end.

Definition is_JSONDecodeError (e : exn) : bool :=
  match e with JSONDecodeError _ => true | _ => false end.

(** [json.JSONDecodeError] is a subclass of [ValueError]. *)
Definition is_ValueError (e : exn) : bool :=
  match e with JSONDecodeError _ | ValueError _ => true | _ => false end.

Definition is_KeyboardInterrupt (e : exn) : bool :=
  match e with KeyboardInterrupt => true | _ => false end.

(** [str(e)] *)
Definition str_exn (e : exn) : string :=
  match e with
  | PermissionError m | FileNotFoundError m | OSError m | JSONDecodeError m
  | ValueError m | TypeError m | AttributeError m | RuntimeError m => m
  | KeyError k => "'" +:+ k +:+ "'"
  | KeyboardInterrupt => ""
  end.

(** A computation either returns or raises. *)
Inductive result (A : Type) : Type :=
| Ok (a : A)
| Raise (e : exn).
Global Arguments Ok {A} a.
Global Arguments Raise {A} e.

Global Instance result_ret : MRet result := λ A a, Ok a.
Global Instance result_bind : MBind result := λ A B f m,
  match m with Ok a => f a | Raise e => Raise e end.

(** ** JSON-shaped values *)

(** A JSON number read by Python is an [int] or a [float]. *)
Inductive number : Type :=
| Int (z : Z)
| Float (f : spec_float).

(** A JSON document, and also the Python value [json.load] builds from
    it.  A document as found in a file may repeat a key inside an object;
    a Python [dict] never does (see [json_load]). *)
Inductive json : Type :=
| JNull
| JBool (b : bool)
| JNum (n : number)
| JStr (s : string)
| JArr (l : list json)
| JObj (members : list (string * json)).

(** ** Insertion-ordered dictionaries with string keys *)

Definition dict (V : Type) : Type := list (string * V).

Definition keys {V} (d : dict V) : list string := d.*1.

(** [k in d] *)
Definition dict_mem {V} (k : string) (d : dict V) : bool :=
  bool_decide (k ∈ keys d).

(** [d.get(k)] *)
Fixpoint dict_get {V} (k : string) (d : dict V) : option V :=
  match d with
  | [] => None
  | (k', v) :: d' => if decide (k' = k) then Some v else dict_get k d'
  end.

(** [d[k] = v]: an existing key keeps its position, a new one goes last. *)
Fixpoint dict_set {V} (k : string) (v : V) (d : dict V) : dict V :=
  match d with
  | [] => [(k, v)]
  | (k', v') :: d' =>
      if decide (k' = k) then (k, v) :: d' else (k', v') :: dict_set k v d'
  end.

(** [d[k]] *)
Definition dict_getitem {V} (k : string) (d : dict V) : result V :=
  match dict_get k d with
  | Some v => Ok v
  | None => Raise (KeyError k)
  end.

(** [v[k]] for a JSON-shaped [v] and a string [k]. *)
Definition getitem (v : json) (k : string) : result json :=
  match v with
  | JObj d => dict_getitem k d
  | JStr _ => Raise (TypeError "string indices must be integers")
  | JArr _ => Raise (TypeError "list indices must be integers or slices, not str")
  | _ => Raise (TypeError "object is not subscriptable")
  end.

(** [v.items()] *)
Definition items (v : json) : result (dict json) :=
  match v with
  | JObj d => Ok d
  | _ => Raise (AttributeError "object has no attribute 'items'")
  end.

(** [len(v)] *)
Definition len (v : json) : result nat :=
  match v with
  | JObj d => Ok (length d)
  | JArr l => Ok (length l)
  | JStr s => Ok (String.length s)
  | _ => Raise (TypeError "object has no len()")
  end.

(** [s != v] where the left operand is a [str]: a string equals only a
    string with the same characters. *)
Definition str_ne (s : string) (v : json) : bool :=
  match v with
  | JStr t => negb (bool_decide (s = t))
  | _ => true
  end.

(** Truth value of a [str]. *)
Definition str_truthy (s : string) : bool := negb (bool_decide (s = "")).

(** Truth value of a JSON-shaped value. *)
Definition truthy (v : json) : bool :=
  match v with
  | JNull => false
  | JBool b => b
  | JNum (Int z) => negb (bool_decide (z = 0))
  | JNum (Float (S754_zero _)) => false
  | JNum (Float _) => true
  | JStr s => str_truthy s
  | JArr l => match l with [] => false | _ => true end
  | JObj d => match d with [] => false | _ => true end
  end.

(** [json.load] builds each object's [dict] by assigning the members in
    document order, so a repeated key keeps its first position and its
    last value. *)
Fixpoint json_load (doc : json) : json :=
  match doc with
  | JArr l => JArr (json_load <$> l)
  | JObj members =>
      JObj (foldl (λ d '(k, v), dict_set k (json_load v) d) [] members)
  | _ => doc
  end.

(** [json.dump] of a JSON-shaped value writes it as a document. *)
Definition json_dump (v : json) : json := v.

End Py.
Export Py.

(** ** The operating system as seen by the monitor *)

Module OS.

(** What [os.stat] returns, as far as the monitor reads it. *)
Record stat_result : Type := {
  st_size : Z;
  st_mtime : number;
  st_ctime : number;
}.

(** A file is the outcome of each call the monitor makes on its path:
    [os.stat], [os.path.getsize], and opening it in binary mode and
    reading it to the end. *)
Record regular_file : Type := {
  os_stat : result stat_result;
  os_path_getsize : result Z;
  read_all : result (list byte);
}.

(** A directory entry.  A directory that cannot be listed makes
    [os.listdir] raise [PermissionError]. *)
Inductive node : Type :=
| File (f : regular_file)
| Dir (listable : bool) (entries : list (string * node)).

(** A file system tells what a path resolves to, if anything. *)
Definition filesystem : Type := string → option node.

(** [name.startswith('.')] *)
Definition startswith_dot (name : string) : bool :=
  match name with
  | String "." _ => true
  | _ => false
  end.

Fixpoint contains_slash (s : string) : bool :=
  match s with
  | "" => false
  | String c s' => bool_decide (c = "/"%char) || contains_slash s'
  end.

(** [os.path.basename(p)]: what follows the last slash. *)
Fixpoint os_path_basename (p : string) : string :=
  match p with
  | "" => ""
  | String c p' =>
      if contains_slash p' then os_path_basename p'
      else if bool_decide (c = "/"%char) then p' else p
  end.

(** Paths below the scanned directory are kept relative to it, which
    makes [os.path.relpath(filepath, directory)] the identity on them;
    the directory itself is the empty path.  [os.path.join] of such a
    path and a name: *)
Definition os_path_join (root name : string) : string :=
  if decide (root = "") then name else root +:+ "/" +:+ name.

(** The names of the sub-directories and the non-directories of a listing,
    as [os.walk] splits them. *)
Definition dirnames (entries : list (string * node)) : list string :=
  omap (λ '(name, n), match n with Dir _ _ => Some name | File _ => None end)
       entries.

Definition filenames (entries : list (string * node))
    : list (string * regular_file) :=
  omap (λ '(name, n), match n with File f => Some (name, f) | Dir _ _ => None end)
       entries.

(** [os.walk(top)], top-down, when the caller replaces [dirs] in place by
    [d for d in dirs if keep d] before the generator resumes: each
    directory that can be listed yields [(root, dirs, files)], then the
    kept sub-directories are walked in order.  A directory whose listing
    fails yields nothing ([onerror] is not set).  Each file name comes
    with the file it denotes. *)
Fixpoint os_walk (keep : string → bool) (root : string) (top : node)
    : list (string * list string * list (string * regular_file)) :=
  match top with
  | File _ => []
  | Dir false _ => []
  | Dir true entries =>
      (root, dirnames entries, filenames entries) ::
      (entries ≫= λ '(name, n),
         match n with
         | Dir _ _ =>
             if keep name then os_walk keep (os_path_join root name) n
             else []
         | File _ => []
         end)
  end.

(** The baseline file.  Its text is a JSON document or something
    [json.load] rejects; it may be absent; the process may or may not be
    allowed to read it, and to create or overwrite it. *)
Inductive file_text : Type :=
| NotJson (text : string)
| JsonText (doc : json).

Record baseline_store : Type := {
  stored : option file_text;
  may_read : bool;
  may_write : bool;
}.

(** [os.path.exists(path)] and [os.access(path, os.R_OK)] *)
Definition os_path_exists (disk : baseline_store) : bool :=
  bool_decide (is_Some (stored disk)).

Definition os_access_R_OK (disk : baseline_store) : bool :=
  bool_decide (is_Some (stored disk)) && may_read disk.

(** [with open(path, 'w') as f: json.dump(v, f, indent=2)] *)
Definition write_json (disk : baseline_store) (v : json)
    : result baseline_store :=
  if may_write disk
  then Ok {| stored := Some (JsonText (json_dump v));
             may_read := may_read disk;
             may_write := may_write disk |}
  else Raise (PermissionError "Permission denied").

(** [with open(path, 'r') as f: json.load(f)] *)
Definition read_json (disk : baseline_store) : result json :=
  match stored disk with
  | None => Raise (FileNotFoundError "No such file or directory")
  | Some text =>
      if may_read disk then
        match text with
        | JsonText doc => Ok (json_load doc)
        | NotJson _ => Raise (JSONDecodeError "Expecting value")
        end
      else Raise (PermissionError "Permission denied")
  end.

End OS.
Export OS.

(** ** The monitor *)

(** The record [get_file_info] builds for a file: the values under the
    keys ['hash'], ['size'], ['modified'] and ['created']. *)
Module Info.
Record t : Type := {
  hash : string;
  size : Z;
  modified : number;
  created : number;
}.

(** The same record as the JSON-shaped [dict] Python holds. *)
Definition to_json (i : t) : json :=
  JObj [("hash", JStr (hash i)); ("size", JNum (Int (size i)));
        ("modified", JNum (modified i)); ("created", JNum (created i))].
End Info.

(** A scan result as the value stored in [self.baseline]. *)
Definition baseline_of_scan (files_data : dict Info.t) : json :=
  JObj (prod_map id Info.to_json <$> files_data).

(** An entry of [changes['added']]. *)
Module Added.
Record t : Type := {
  file : string;
  hash : string;
  size : Z;
}.
End Added.

(** An entry of [changes['modified']].  The old values come from the
    baseline and are whatever JSON value the baseline holds there. *)
Module Modified.
Record t : Type := {
  file : string;
  old_hash : json;
  new_hash : string;
  old_size : json;
  new_size : Z;
}.
End Modified.

(** The [dict] of the three lists [check_changes] returns. *)
Record Changes : Type := {
  modified : list Modified.t;
  added : list Added.t;
  deleted : list string;
}.

Definition no_changes : Changes :=
  {| modified := []; added := []; deleted := [] |}.

(** The attributes of a [FileIntegrityMonitor] object. *)
Record FileIntegrityMonitor : Type := {
  baseline_file : string;
  baseline : json;
  monitoring : bool;
  max_file_size : Z;
  ignore_files : gset string;
}.

Definition set_baseline (self : FileIntegrityMonitor) (b : json)
    : FileIntegrityMonitor :=
  {| baseline_file := baseline_file self;
     baseline := b;
     monitoring := monitoring self;
     max_file_size := max_file_size self;
     ignore_files := ignore_files self |}.

(** [FileIntegrityMonitor(baseline_file, ignore_files)], where
    [baseline_path] is the path [_validate_baseline_path] returned for
    [baseline_file]. *)
Definition __init__ (baseline_path : string)
    (ignore : option (list string)) : FileIntegrityMonitor :=
  {| baseline_file := baseline_path;
     baseline := JObj [];
     monitoring := false;
     max_file_size := 500 * 1024 * 1024;
     ignore_files :=
       (match ignore with
        | Some ((_ :: _) as names) => list_to_set names
        | _ => ∅
        end) ∪ {["fim.log"]} |}.

(** A [for] loop over [l] whose body updates a state and may raise: the
    loop stops at the first exception, with the state reached so far. *)
Fixpoint for_each {S A : Type} (body : S → A → S * option exn)
    (l : list A) (s : S) : S * option exn :=
  match l with
  | [] => (s, None)
  | a :: l' =>
      match body s a with
      | (s', None) => for_each body l' s'
      | (s', Some e) => (s', Some e)
      end
  end.

(** A loop body that changes the state only as its last step. *)
Definition step {S : Type} (s : S) (r : result S) : S * option exn :=
  match r with
  | Ok s' => (s', None)
  | Raise e => (s, Some e)
  end.

Section monitor.

(** [hashlib.sha256(data).hexdigest()] *)
Variable sha256_hexdigest : list byte → string.

Implicit Types (self : FileIntegrityMonitor) (fs : filesystem).

Definition _validate_directory fs (directory : string) : result node :=
  match fs directory with
  | None => Raise (ValueError ("Directory does not exist: " +:+ directory))
  | Some (File _) =>
      Raise (ValueError ("Path is not a directory: " +:+ directory))
  | Some (Dir false _) =>
      Raise (PermissionError
               ("No read permission for directory: " +:+ directory))
  | Some (Dir true entries) => Ok (Dir true entries)
  end.

Definition calculate_hash self (filepath : regular_file)
    : result (option string) :=
  let attempt : result (option string) :=
    file_size ← os_path_getsize filepath;
    if bool_decide (file_size > max_file_size self) then mret None
    else
      data ← read_all filepath;
      mret (Some (sha256_hexdigest data)) in
  match attempt with
  | Ok r => Ok r
  | Raise e =>
      if is_PermissionError e then Ok None
      else if is_FileNotFoundError e then Ok None
      else if is_OSError e then Ok None
      else if is_Exception e then Ok None
      else Raise e
  end.

Definition get_file_info self (filepath : regular_file)
    : result (option Info.t) :=
  let attempt : result (option Info.t) :=
    stat_info ← os_stat filepath;
    file_hash ← calculate_hash self filepath;
    match file_hash with
    | None => mret None
    | Some h =>
        mret (Some {| Info.hash := h;
                      Info.size := st_size stat_info;
                      Info.modified := st_mtime stat_info;
                      Info.created := st_ctime stat_info |})
    end in
  match attempt with
  | Ok r => Ok r
  | Raise e =>
      if is_FileNotFoundError e then Ok None
      else if is_PermissionError e then Ok None
      else if is_OSError e then Ok None
      else if is_Exception e then Ok None
      else Raise e
  end.

(** The filter [scan_directory] applies to [dirs]. *)
Definition keep_dir (d : string) : bool :=
  negb (startswith_dot d) &&
  negb (bool_decide (d ∈ ["$RECYCLE.BIN"; "System Volume Information"])).

(** The body of the loop over [files] in [scan_directory]. *)
Definition scan_file self (baseline_filename root : string)
    (files_data : dict Info.t) (entry : string * regular_file)
    : dict Info.t * option exn :=
  let '(filename, f) := entry in
  let attempt : result (dict Info.t) :=
    if startswith_dot filename
       || bool_decide (filename = baseline_filename)
       || bool_decide (filename ∈ ignore_files self)
    then mret files_data
    else
      let filepath := os_path_join root filename in
      let relative_path := filepath in
      file_info ← get_file_info self f;
      match file_info with
      | Some info =>
          if str_truthy (Info.hash info)
          then mret (dict_set relative_path info files_data)
          else mret files_data
      | None => mret files_data
      end in
  match attempt with
  | Ok files_data' => (files_data', None)
  | Raise e =>
      if is_Exception e then (files_data, None) else (files_data, Some e)
  end.

Definition scan_directory self fs (directory : string)
    : result (dict Info.t) :=
  let files_data : dict Info.t := [] in
  match _validate_directory fs directory with
  | Raise e => if is_Exception e then Ok files_data else Raise e
  | Ok directory =>
      let baseline_filename := os_path_basename (baseline_file self) in
      let walk :=
        for_each
          (λ files_data '(root, dirs, files),
             for_each (scan_file self baseline_filename root) files files_data)
          (os_walk keep_dir "" directory) files_data in
      match walk with
      | (files_data, None) => Ok files_data
      | (files_data, Some e) =>
          if is_KeyboardInterrupt e then Raise e
          else if is_Exception e then Ok files_data
          else Raise e
      end
  end.

(** The dump, re-read and count check of [create_baseline]. *)
Definition save_baseline self (disk : baseline_store)
    : bool * baseline_store :=
  match write_json disk (baseline self) with
  | Raise e => (false, disk)
  | Ok disk' =>
      let verify : result bool :=
        verification ← read_json disk';
        n ← len verification;
        m ← len (baseline self);
        if bool_decide (n ≠ m)
        then Raise (ValueError "Baseline verification failed")
        else mret true in
      match verify with
      | Ok b => (b, disk')
      | Raise e => (false, disk')
      end
  end.

(** [create_baseline] returns its boolean, and leaves the monitor and the
    baseline file in a new state.  Every handler returns [False]. *)
Definition create_baseline self fs (directory : string)
    (disk : baseline_store) : bool * FileIntegrityMonitor * baseline_store :=
  match scan_directory self fs directory with
  | Raise e => (false, self, disk)
  | Ok files_data =>
      let self := set_baseline self (baseline_of_scan files_data) in
      if negb (truthy (baseline self)) then (false, self, disk)
      else
        let '(saved, disk') := save_baseline self disk in
        (saved, self, disk')
  end.

Definition required_keys : list string :=
  ["hash"; "size"; "modified"; "created"].

(** The structure checks of [load_baseline]. *)
Definition validate_entry (item : string * json) : result () :=
  let '(filepath, info) := item in
  match info with
  | JObj d =>
      if forallb (λ k, dict_mem k d) required_keys then mret ()
      else Raise (ValueError ("Missing required keys for " +:+ filepath))
  | _ => Raise (ValueError ("Invalid entry for " +:+ filepath))
  end.

Fixpoint validate_entries (d : dict json) : result () :=
  match d with
  | [] => mret ()
  | item :: d' => validate_entry item ≫= λ _, validate_entries d'
  end.

Definition validate_baseline (b : json) : result () :=
  match b with
  | JObj d => validate_entries d
  | _ => Raise (ValueError "Invalid baseline format: expected dictionary")
  end.

(** The handlers of [load_baseline]: the message logged as an error, and
    [False]. *)
Definition load_failed (e : exn) : result (bool * option string) :=
  if is_JSONDecodeError e
  then Ok (false, Some ("Baseline file is corrupted: " +:+ str_exn e))
  else if is_ValueError e
  then Ok (false, Some ("Invalid baseline format: " +:+ str_exn e))
  else if is_Exception e
  then Ok (false, Some ("Error loading baseline: " +:+ str_exn e))
  else Raise e.

(** [load_baseline] returns its boolean together with the error it logged,
    if any, and leaves the monitor in a new state: [self.baseline] is
    assigned before the document is checked. *)
Definition load_baseline self (disk : baseline_store)
    : result (bool * option string) * FileIntegrityMonitor :=
  if negb (os_path_exists disk)
  then (Ok (false, Some ("Baseline file not found: " +:+ baseline_file self)),
        self)
  else if negb (os_access_R_OK disk)
  then (Ok (false, Some ("No read permission for baseline file: "
                         +:+ baseline_file self)), self)
  else
    match read_json disk with
    | Raise e => (load_failed e, self)
    | Ok doc =>
        let self := set_baseline self doc in
        match validate_baseline (baseline self) with
        | Raise e => (load_failed e, self)
        | Ok _ => (Ok (true, None), self)
        end
    end.

(** The body of the first loop of [check_changes]. *)
Definition check_baseline_entry self (current_state : dict Info.t)
    (changes : Changes) (item : string * json) : result Changes :=
  let '(filepath, baseline_info) := item in
  let filename := os_path_basename filepath in
  if bool_decide (filename ∈ ignore_files self) then mret changes
  else if dict_mem filepath current_state then
    current_info ← dict_getitem filepath current_state;
    baseline_hash ← getitem baseline_info "hash";
    if str_ne (Info.hash current_info) baseline_hash then
      old_hash ← getitem baseline_info "hash";
      old_size ← getitem baseline_info "size";
      mret {| modified :=
                modified changes ++
                [ {| Modified.file := filepath;
                     Modified.old_hash := old_hash;
                     Modified.new_hash := Info.hash current_info;
                     Modified.old_size := old_size;
                     Modified.new_size := Info.size current_info |} ];
              added := added changes;
              deleted := deleted changes |}
    else mret changes
  else
    mret {| modified := modified changes;
            added := added changes;
            deleted := deleted changes ++ [filepath] |}.

(** The body of the second loop of [check_changes]; [baseline_items]
    are the members of [self.baseline], a [dict] once the first loop has
    run. *)
Definition check_current_entry (baseline_items : dict json)
    (current_state : dict Info.t) (changes : Changes) (filepath : string)
    : result Changes :=
  if negb (dict_mem filepath baseline_items) then
    current_info ← dict_getitem filepath current_state;
    mret {| modified := modified changes;
            added :=
              added changes ++
              [ {| Added.file := filepath;
                   Added.hash := Info.hash current_info;
                   Added.size := Info.size current_info |} ];
            deleted := deleted changes |}
  else mret changes.

(** The two loops of [check_changes]. *)
Definition baseline_loop self (current_state : dict Info.t)
    : dict json → Changes → Changes * option exn :=
  for_each (λ changes item,
              step changes
                   (check_baseline_entry self current_state changes item)).

Definition current_loop (baseline_items : dict json)
    (current_state : dict Info.t)
    : list string → Changes → Changes * option exn :=
  for_each (λ changes filepath,
              step changes
                   (check_current_entry baseline_items current_state
                                        changes filepath)).

(** The comparison of [check_changes], after the scan. *)
Definition compare_states self (current_state : dict Info.t)
    : result Changes :=
  let changes := no_changes in
  baseline_items ← items (baseline self);
  match baseline_loop self current_state baseline_items changes with
  | (_, Some e) => Raise e
  | (changes, None) =>
      match current_loop baseline_items current_state
                         (keys current_state) changes with
      | (_, Some e) => Raise e
      | (changes, None) => mret changes
      end
  end.

(** The [try] block of [check_changes]. *)
Definition check_changes_attempt self fs (directory : string)
    : result (Changes * dict Info.t) :=
  current_state ← scan_directory self fs directory;
  changes ← compare_states self current_state;
  mret (changes, current_state).

Definition check_changes self fs (directory : string)
    : result (Changes * dict Info.t) :=
  match check_changes_attempt self fs directory with
  | Ok r => Ok r
  | Raise e =>
      if is_Exception e then Ok (no_changes, []) else Raise e
  end.

(** [monitor_once] returns nothing; what is observed here is the
    changeset it hands to [report_changes], if it gets that far. *)
Definition monitor_once self fs (directory : string)
    (disk : baseline_store)
    : result (option Changes) * FileIntegrityMonitor :=
  match load_baseline self disk with
  | (Raise e, self) =>
      (if is_Exception e then Ok None else Raise e, self)
  | (Ok (false, _), self) => (Ok None, self)
  | (Ok (true, _), self) =>
      match check_changes self fs directory with
      | Ok (changes, _) => (Ok (Some changes), self)
      | Raise e => (if is_Exception e then Ok None else Raise e, self)
      end
  end.

End monitor.

(** * Vocabulary of the specification *)

(** A name a directory entry can have: not empty, and without a slash. *)
Definition valid_name (name : string) : bool :=
  negb (bool_decide (name = "")) && negb (contains_slash name).

(** A tree as a file system holds it: entries have valid names, and no
    directory lists a name twice. *)
Fixpoint valid_tree (n : node) : bool :=
  match n with
  | File _ => true
  | Dir _ entries =>
      bool_decide (NoDup entries.*1) &&
      forallb (λ '(name, c), valid_name name && valid_tree c) entries
  end.

(** The node that the names [path], followed from [top], lead to. *)
Fixpoint resolve (top : node) (path : list string) : option node :=
  match path with
  | [] => Some top
  | name :: path' =>
      match top with
      | Dir _ entries => dict_get name entries ≫= λ n, resolve n path'
      | File _ => None
      end
  end.

(** The path, relative to the scanned directory, of the entry that the
    names [path] lead to. *)
Definition relpath_of (path : list string) : string :=
  foldl os_path_join "" path.

(** [reach top path n]: following the names [path] from [top], through
    entries listed under these names, leads to [n]. *)
Inductive reach : node → list string → node → Prop :=
| reach_here n : reach n [] n
| reach_step listable entries name c path n :
    (name, c) ∈ entries → reach c path n →
    reach (Dir listable entries) (name :: path) n.

Section vocabulary.
Implicit Types (self : FileIntegrityMonitor) (cur : dict Info.t)
  (bl : dict json) (ch : Changes).

(** The classification in the words of the specification: which entries
    the three steps of the differ call for. *)
Definition spec_modified self bl cur (e : Modified.t) : Prop :=
  ∃ info ci,
    (Modified.file e, info) ∈ bl ∧
    (os_path_basename (Modified.file e) ∉ ignore_files self) ∧
    dict_get (Modified.file e) cur = Some ci ∧
    getitem info "hash" = Ok (Modified.old_hash e) ∧
    getitem info "size" = Ok (Modified.old_size e) ∧
    str_ne (Info.hash ci) (Modified.old_hash e) = true ∧
    Modified.new_hash e = Info.hash ci ∧
    Modified.new_size e = Info.size ci.

Definition spec_deleted self bl cur (p : string) : Prop :=
  p ∈ keys bl ∧ (os_path_basename p ∉ ignore_files self) ∧ (p ∉ keys cur).

Definition spec_added bl cur (a : Added.t) : Prop :=
  (Added.file a ∉ keys bl) ∧
  ∃ ci, dict_get (Added.file a) cur = Some ci ∧
        Added.hash a = Info.hash ci ∧ Added.size a = Info.size ci.

End vocabulary.

Section partition_vocabulary.
Implicit Types (self : FileIntegrityMonitor) (cur : dict Info.t)
  (bl : dict json) (ch : Changes) (p : string).

(** Membership of a path in each of the three sequences. *)
Definition in_modified ch p : Prop := p ∈ Modified.file <$> modified ch.
Definition in_added ch p : Prop := p ∈ Added.file <$> added ch.
Definition in_deleted ch p : Prop := p ∈ deleted ch.

Definition in_none ch p : Prop :=
  ¬ in_modified ch p ∧ ¬ in_added ch p ∧ ¬ in_deleted ch p.

Definition in_exactly_one ch p : Prop :=
  (in_modified ch p ∧ ¬ in_added ch p ∧ ¬ in_deleted ch p) ∨
  (¬ in_modified ch p ∧ in_added ch p ∧ ¬ in_deleted ch p) ∨
  (¬ in_modified ch p ∧ ¬ in_added ch p ∧ in_deleted ch p).

(** [p] is in both mappings, with equal hashes. *)
Definition same_hash bl cur p : Prop :=
  p ∈ keys bl ∧
  ∃ ci, dict_get p cur = Some ci ∧
    ∀ info, (p, info) ∈ bl →
      ∃ oh, getitem info "hash" = Ok oh ∧ str_ne (Info.hash ci) oh = false.

(** The partition invariant as the specification states it: every path
    of the union is in no sequence when it is an equal-hash member of
    both mappings, and in exactly one sequence otherwise. *)
Definition partitions bl cur ch : Prop :=
  ∀ p, p ∈ keys bl ∨ p ∈ keys cur →
    (same_hash bl cur p → in_none ch p) ∧
    (¬ same_hash bl cur p → in_exactly_one ch p).

(** The same, with the baseline paths whose basename is ignored set
    apart: they are in no sequence. *)
Definition partitions_unignored self bl cur ch : Prop :=
  ∀ p, p ∈ keys bl ∨ p ∈ keys cur →
    (p ∈ keys bl ∧ os_path_basename p ∈ ignore_files self → in_none ch p) ∧
    (¬ (p ∈ keys bl ∧ os_path_basename p ∈ ignore_files self) →
       (same_hash bl cur p → in_none ch p) ∧
       (¬ same_hash bl cur p → in_exactly_one ch p)).
End partition_vocabulary.

(** The tree a directory argument resolves to is a valid one. *)
Definition valid_root (fs : filesystem) (directory : string) : bool :=
  match fs directory with
  | Some top => valid_tree top
  | None => true
  end.

(** A path with an ignored basename, or below a hidden directory. *)
Definition excluded (self : FileIntegrityMonitor) (p : string) : Prop :=
  os_path_basename p ∈ ignore_files self ∨
  ∃ path name,
    p = relpath_of (path ++ [name]) ∧
    Forall (λ n, valid_name n = true) (path ++ [name]) ∧
    Exists (λ d, startswith_dot d = true) path.

(** An entry of a baseline document that [load_baseline] must reject: its
    value is not a mapping, or lacks one of the four required fields. *)
Definition bad_entry (info : json) : Prop :=
  match info with
  | JObj d => ∃ k, k ∈ required_keys ∧ k ∉ keys d
  | _ => True
  end.

Section scan_vocabulary.
Variable sha256_hexdigest : list byte → string.
Implicit Types (self : FileIntegrityMonitor) (top : node).

(** Where an entry of a scan result comes from: a file of the tree, below
    kept directories only, that passes the name filter and for which
    [get_file_info] returned a record with a non-empty hash. *)
Definition scanned self top (p : string) (info : Info.t) : Prop :=
  ∃ path name f,
    reach top (path ++ [name]) (File f) ∧
    p = relpath_of (path ++ [name]) ∧
    Forall (λ d, keep_dir d = true) path ∧
    startswith_dot name = false ∧
    name ≠ os_path_basename (baseline_file self) ∧
    (name ∉ ignore_files self) ∧
    get_file_info sha256_hexdigest self f = Ok (Some info) ∧
    Info.hash info ≠ "".

End scan_vocabulary.

(** * A concrete scenario

    The directory of the specification's example: [a.txt] holds "hello"
    and [b.txt] holds "world" when the baseline is made; then [a.txt] is
    rewritten to "HELLO", [b.txt] is deleted and [c.txt] is added.  The
    tree also has a log file, a hidden directory, a plain sub-directory,
    a file that cannot be read and one that is too large, and in the end
    a file named as the baseline file is. *)
Module Scenario.

(** A stand-in for SHA-256 that is easy to read: the content itself,
    tagged. *)
Definition digest (data : list byte) : string :=
  "sha256:" +:+ String.string_of_list_byte data.

Definition time : number := Float (S754_finite false 13 27).

Definition file_with (content : string) : regular_file :=
  let data := String.list_byte_of_string content in
  {| os_stat := Ok {| st_size := Z.of_nat (length data);
                      st_mtime := time; st_ctime := time |};
     os_path_getsize := Ok (Z.of_nat (length data));
     read_all := Ok data |}.

Definition unreadable : regular_file :=
  {| os_stat := Ok {| st_size := 3; st_mtime := time; st_ctime := time |};
     os_path_getsize := Ok 3;
     read_all := Raise (PermissionError "Permission denied") |}.

Definition vanished : regular_file :=
  {| os_stat := Ok {| st_size := 3; st_mtime := time; st_ctime := time |};
     os_path_getsize := Raise (FileNotFoundError "No such file or directory");
     read_all := Raise (FileNotFoundError "No such file or directory") |}.

Definition oversized : regular_file :=
  {| os_stat := Ok {| st_size := 524288001; st_mtime := time;
                      st_ctime := time |};
     os_path_getsize := Ok 524288001;
     read_all := Ok [] |}.

Definition before : node :=
  Dir true
    [("a.txt", File (file_with "hello"));
     ("b.txt", File (file_with "world"));
     ("fim.log", File (file_with "started"));
     (".git", Dir true [("config", File (file_with "[core]"))]);
     ("sub", Dir true [("x.txt", File (file_with "same"))]);
     ("locked.bin", File unreadable);
     ("huge.iso", File oversized)].

Definition after : node :=
  Dir true
    [("a.txt", File (file_with "HELLO"));
     ("c.txt", File (file_with "new"));
     ("baseline.json", File (file_with "{}"));
     ("fim.log", File (file_with "started, checked"));
     (".git", Dir true [("config", File (file_with "[core] bare"))]);
     ("sub", Dir true [("x.txt", File (file_with "same"))]);
     ("locked.bin", File unreadable);
     ("huge.iso", File oversized)].

Definition at_data (top : node) : filesystem :=
  λ directory, if decide (directory = "/data") then Some top else None.

Definition fim : FileIntegrityMonitor := __init__ "/srv/baseline.json" None.

Definition record (content : string) (n : Z) : Info.t :=
  {| Info.hash := "sha256:" +:+ content; Info.size := n;
     Info.modified := time; Info.created := time |}.

Definition scan_before : dict Info.t :=
  [("a.txt", record "hello" 5); ("b.txt", record "world" 5);
   ("sub/x.txt", record "same" 4)].

Definition scan_after : dict Info.t :=
  [("a.txt", record "HELLO" 5); ("c.txt", record "new" 3);
   ("sub/x.txt", record "same" 4)].

Definition fim_loaded : FileIntegrityMonitor :=
  set_baseline fim (baseline_of_scan scan_before).

Definition changes_after : Changes :=
  {| modified :=
       [ {| Modified.file := "a.txt";
            Modified.old_hash := JStr "sha256:hello";
            Modified.new_hash := "sha256:HELLO";
            Modified.old_size := JNum (Int 5);
            Modified.new_size := 5 |} ];
     added :=
       [ {| Added.file := "c.txt"; Added.hash := "sha256:new";
            Added.size := 3 |} ];
     deleted := ["b.txt"] |}.

(** A monitor told to ignore [temp.txt], with a baseline made before
    that rule existed. *)
Definition fim_ignoring : FileIntegrityMonitor :=
  set_baseline (__init__ "/srv/baseline.json" (Some ["temp.txt"]))
               (baseline_of_scan [("temp.txt", record "draft" 5)]).

Definition with_temp : node :=
  Dir true [("temp.txt", File (file_with "draft"))].

(** A monitor whose baseline has an entry without a hash. *)
Definition fim_broken : FileIntegrityMonitor :=
  set_baseline fim (JObj [("a.txt", JObj [("size", JNum (Int 5))])]).

(** A baseline file with an entry that lacks its [size]. *)
Definition sizeless : json :=
  JObj [("a.txt", JObj [("hash", JStr "sha256:hello");
                        ("modified", JNum time);
                        ("created", JNum time)])].

Definition blank_disk : baseline_store :=
  {| stored := None; may_read := true; may_write := true |}.

Definition sizeless_disk : baseline_store :=
  {| stored := Some (JsonText sizeless); may_read := true;
     may_write := true |}.

End Scenario.


(** * Vocabulary for the further properties *)

(** No call on the file is cut short by the user: each either returns or
    raises an [Exception]. *)
Definition interrupt_free_file (f : regular_file) : bool :=
  match os_stat f with Raise e => is_Exception e | Ok _ => true end &&
  match os_path_getsize f with Raise e => is_Exception e | Ok _ => true end &&
  match read_all f with Raise e => is_Exception e | Ok _ => true end.

Fixpoint interrupt_free (n : node) : bool :=
  match n with
  | File f => interrupt_free_file f
  | Dir _ entries => forallb (λ '(_, c), interrupt_free c) entries
  end.

Definition interrupt_free_root (fs : filesystem) (directory : string) : bool :=
  match fs directory with
  | Some top => interrupt_free top
  | None => true
  end.


(** More of the scenario: a file of exactly the size limit, and a
    baseline file that can be written but not read. *)
Module Scenario2.
Import Scenario.

Definition at_limit : regular_file :=
  {| os_stat := Ok {| st_size := 524288000; st_mtime := time;
                      st_ctime := time |};
     os_path_getsize := Ok 524288000;
     read_all := Ok [] |}.

Definition write_only_disk : baseline_store :=
  {| stored := Some (NotJson "old"); may_read := false; may_write := true |}.

End Scenario2.

(** ** Alerts and the monitoring loop *)

(** [v[:16]], for what it raises.  A [str] and a [list] can be sliced;
    of the other values JSON gives, a [dict] is looked up at the slice
    as a key, which it does not have (before Python 3.12, where a slice
    cannot be hashed, this is a [TypeError] instead), and the rest
    cannot be subscripted. *)
Definition slice16 (v : json) : result () :=
  match v with
  | JStr _ | JArr _ => mret ()
  | JObj _ => Raise (KeyError "slice(None, 16, None)")
  | JNull => Raise (TypeError "'NoneType' object is not subscriptable")
  | JBool _ => Raise (TypeError "'bool' object is not subscriptable")
  | JNum (Int _) => Raise (TypeError "'int' object is not subscriptable")
  | JNum (Float _) => Raise (TypeError "'float' object is not subscriptable")
  end.

(** [generate_alert] returns its boolean, or raises; beside it stand the
    messages it passed to [logger.warning] up to that point.  An entry
    of the modified list is printed with the first sixteen characters of
    its two hashes, and the old hash is whatever the baseline held. *)
Definition generate_alert (changes : Changes) : list string * result bool :=
  let total_changes :=
    (length (modified changes) + length (added changes)
     + length (deleted changes))%nat in
  if bool_decide (total_changes = 0%nat) then ([], Ok false)
  else
    let alert_msg :=
      "INTEGRITY VIOLATION - " +:+ pretty total_changes
      +:+ " change(s) detected" in
    let log := [alert_msg] in
    match for_each (λ log item,
                      step log (slice16 (Modified.old_hash item) ≫= λ _,
                                mret (log ++ ["Modified: "
                                              +:+ Modified.file item])))
                   (modified changes) log with
    | (log, Some e) => (log, Raise e)
    | (log, None) =>
        let log := log ++ ((λ item, "Added: " +:+ Added.file item)
                           <$> added changes) in
        let log := log ++ ((λ filepath, "Deleted: " +:+ filepath)
                           <$> deleted changes) in
        (log, Ok true)
    end.

Definition set_monitoring (self : FileIntegrityMonitor) (b : bool)
    : FileIntegrityMonitor :=
  {| baseline_file := baseline_file self;
     baseline := baseline self;
     monitoring := b;
     max_file_size := max_file_size self;
     ignore_files := ignore_files self |}.

(** The interval [monitor_realtime] sleeps for, after its check of the
    argument. *)
Definition checked_interval (interval : Z) : Z :=
  if bool_decide (interval < 1) then 1
  else if bool_decide (interval > 3600) then 3600
  else interval.

(** What the monitoring loop has in hand between two cycles: the
    monitor, the baseline file, and the changesets it has raised an
    alert for so far. *)
Record Monitoring : Type := {
  monitor : FileIntegrityMonitor;
  baseline_disk : baseline_store;
  alerts : list Changes;
}.

Section monitor_loop.
Variable sha256_hexdigest : list byte → string.

(** One pass through the body of the [while] loop of
    [monitor_realtime], on the directory as [fs] has it.  An [Exception]
    is logged and the loop goes on; [KeyboardInterrupt] ends it. *)
Definition monitor_cycle (directory : string) (update_baseline : bool)
    (now : Monitoring) (fs : filesystem) : Monitoring * option exn :=
  let self := monitor now in
  let attempt : Monitoring * option exn :=
    match check_changes sha256_hexdigest self fs directory with
    | Raise e => (now, Some e)
    | Ok (changes, current_state) =>
        match generate_alert changes with
        | (_, Raise e) => (now, Some e)
        | (_, Ok false) => (now, None)
        | (_, Ok true) =>
            if update_baseline then
              let self := set_baseline self (baseline_of_scan current_state) in
              match write_json (baseline_disk now) (baseline self) with
              | Ok disk =>
                  ({| monitor := self; baseline_disk := disk;
                      alerts := alerts now ++ [changes] |}, None)
              | Raise e =>
                  let now := {| monitor := self;
                                baseline_disk := baseline_disk now;
                                alerts := alerts now ++ [changes] |} in
                  if is_Exception e then (now, None) else (now, Some e)
              end
            else
              ({| monitor := self; baseline_disk := baseline_disk now;
                  alerts := alerts now ++ [changes] |}, None)
        end
    end in
  match attempt with
  | (now, None) => (now, None)
  | (now, Some e) =>
      if is_KeyboardInterrupt e then (now, Some e)
      else if is_Exception e then (now, None)
      else (now, Some e)
  end.

(** [monitor_realtime], run on the successive states [snapshots] of the
    file system, one per cycle; the user stops it during the sleep that
    follows the last one, if nothing has stopped it before.  It returns
    nothing: what is given here is what it leaves behind, and the
    interval it slept for between cycles. *)
Definition monitor_realtime (self : FileIntegrityMonitor)
    (directory : string) (interval : Z) (update_baseline : bool)
    (disk : baseline_store) (snapshots : list filesystem)
    : Monitoring * Z :=
  match load_baseline self disk with
  | (Ok (true, _), self) =>
      let interval := checked_interval interval in
      let self := set_monitoring self true in
      let started := {| monitor := self; baseline_disk := disk;
                        alerts := [] |} in
      ((for_each (monitor_cycle directory update_baseline)
                 snapshots started).1, interval)
  | (_, self) =>
      ({| monitor := self; baseline_disk := disk; alerts := [] |}, interval)
  end.

End monitor_loop.
(** [report_changes] returns nothing, or raises; beside that stands the
    message it passed to the logger.  It prints the modified entries as
    [generate_alert] does, the old hash cut to sixteen characters. *)
Definition report_changes (changes : Changes) : list string * result () :=
  let total_changes :=
    (length (modified changes) + length (added changes)
     + length (deleted changes))%nat in
  if bool_decide (total_changes = 0%nat)
  then (["Integrity check passed - no changes"], Ok ())
  else
    let log := ["Integrity check found " +:+ pretty total_changes
                +:+ " changes"] in
    match for_each (λ _ item, step () (slice16 (Modified.old_hash item)))
                   (modified changes) () with
    | (_, Some e) => (log, Raise e)
    | (_, None) => (log, Ok ())
    end.

(** A baseline whose hashes can all be cut to sixteen characters. *)
Definition sliceable_hashes (b : json) : Prop :=
  ∀ bl p info h,
    b = JObj bl → (p, info) ∈ bl → getitem info "hash" = Ok h →
    slice16 h = Ok ().

(** More of the scenario, for the monitoring loop: the baseline file as
    [create_baseline] wrote it, the loop as it starts from it, and a
    baseline whose hash for [a.txt] is a number. *)
Module Scenario3.
Import Scenario.

Definition saved_disk : baseline_store :=
  {| stored := Some (JsonText (baseline_of_scan scan_before));
     may_read := true; may_write := true |}.

Definition started : Monitoring :=
  {| monitor := fim_loaded; baseline_disk := saved_disk; alerts := [] |}.

Definition updated : Monitoring :=
  {| monitor := set_baseline fim (baseline_of_scan scan_after);
     baseline_disk :=
       {| stored := Some (JsonText (baseline_of_scan scan_after));
          may_read := true; may_write := true |};
     alerts := [changes_after] |}.

Definition numeric_hash : json :=
  JObj [("a.txt", JObj [("hash", JNum (Int 7)); ("size", JNum (Int 5));
                        ("modified", JNum time); ("created", JNum time)])].

Definition started_numeric : Monitoring :=
  {| monitor := set_baseline fim numeric_hash; baseline_disk := saved_disk;
     alerts := [] |}.

End Scenario3.

(** * Properties *)

(** ** Dictionaries *)

Section dict_facts.
Context {V : Type}.
Implicit Types (d : dict V) (k : string) (v : V).

Lemma dict_mem_true k d : dict_mem k d = true ↔ k ∈ keys d.
Proof. unfold dict_mem. by rewrite bool_decide_eq_true. Qed.

Lemma dict_mem_false k d : dict_mem k d = false ↔ k ∉ keys d.
Proof. unfold dict_mem. by rewrite bool_decide_eq_false. Qed.

Lemma dict_get_Some_elem k v d : dict_get k d = Some v → (k, v) ∈ d.
Proof.
  induction d as [|[k' v'] d IH]; simpl; [done|].
  case_decide; intros; simplify_eq; set_solver.
Qed.

Lemma dict_get_None k d : dict_get k d = None ↔ k ∉ keys d.
Proof.
  unfold keys. induction d as [|[k' v'] d IH]; simpl.
  - split; [intros _; apply not_elem_of_nil | done].
  - rewrite not_elem_of_cons. case_decide; subst; [naive_solver|].
    rewrite IH. naive_solver.
Qed.

Lemma dict_get_is_Some k d : is_Some (dict_get k d) ↔ k ∈ keys d.
Proof.
  rewrite <-not_eq_None_Some, dict_get_None.
  destruct (decide (k ∈ keys d)); naive_solver.
Qed.

Lemma elem_keys k v d : (k, v) ∈ d → k ∈ keys d.
Proof. intros H. unfold keys. apply list_elem_of_fmap. by exists (k, v). Qed.

Lemma dict_get_NoDup k v d :
  NoDup (keys d) → (k, v) ∈ d → dict_get k d = Some v.
Proof.
  unfold keys. induction d as [|[k' v'] d IH]; simpl.
  - by intros _ ?%elem_of_nil.
  - intros [Hk' Hd]%NoDup_cons [?|Hin]%elem_of_cons; simplify_eq.
    + by rewrite decide_True.
    + rewrite decide_False; [auto|].
      intros ->. apply Hk'. by apply (elem_keys _ v).
Qed.

Lemma keys_dict_set k v d :
  keys (dict_set k v d) = if dict_mem k d then keys d else keys d ++ [k].
Proof.
  unfold dict_mem, keys. induction d as [|[k' v'] d IH]; csimpl; [done|].
  destruct (decide (k' = k)) as [->|Hne]; csimpl.
  - by rewrite bool_decide_true by set_solver.
  - rewrite IH. repeat case_bool_decide; set_solver.
Qed.

Lemma dict_set_NoDup k v d :
  NoDup (keys d) → NoDup (keys (dict_set k v d)).
Proof.
  intros Hnd. rewrite keys_dict_set. destruct (dict_mem k d) eqn:Hk; [done|].
  apply dict_mem_false in Hk.
  apply NoDup_app. split_and!; [done| |apply NoDup_singleton].
  intros k' Hk' ->%list_elem_of_singleton. done.
Qed.

Lemma dict_set_fresh k v d : k ∉ keys d → dict_set k v d = d ++ [(k, v)].
Proof.
  unfold keys. induction d as [|[k0 v0] d IH]; simpl; [done|].
  intros [? ?]%not_elem_of_cons. rewrite decide_False, IH; auto.
Qed.
End dict_facts.

(** ** The comparison of [check_changes] *)

Section compare.
Implicit Types (self : FileIntegrityMonitor) (cur : dict Info.t)
  (bl : dict json) (ch : Changes).

Lemma getitem_valid info k :
  (∃ d, info = JObj d ∧ k ∈ keys d) → ∃ v, getitem info k = Ok v.
Proof.
  intros (d & -> & [v Hv]%dict_get_is_Some). exists v.
  simpl. unfold dict_getitem. by rewrite Hv.
Qed.

Lemma validate_entry_Ok p info :
  validate_entry (p, info) = Ok () →
  ∃ d, info = JObj d ∧ Forall (λ k, k ∈ keys d) required_keys.
Proof.
  destruct info as [| | | | |d]; try done. unfold validate_entry.
  destruct (forallb (λ k, dict_mem k d) required_keys) eqn:Hall; [|done].
  intros _. exists d. split; [done|].
  apply Is_true_true, forallb_True in Hall. eapply Forall_impl; [exact Hall|].
  simpl. intros k Hk. apply dict_mem_true. by apply Is_true_true.
Qed.

Lemma spec_modified_nil self cur e : ¬ spec_modified self [] cur e.
Proof. by intros (? & ? & ?%elem_of_nil & _). Qed.

Lemma spec_modified_cons self it bl cur e :
  spec_modified self (it :: bl) cur e ↔
  spec_modified self [it] cur e ∨ spec_modified self bl cur e.
Proof.
  unfold spec_modified. setoid_rewrite elem_of_cons.
  setoid_rewrite elem_of_nil. naive_solver.
Qed.

Lemma spec_deleted_nil self cur p : ¬ spec_deleted self [] cur p.
Proof. by intros (?%elem_of_nil & _). Qed.

Lemma spec_deleted_cons self it bl cur p :
  spec_deleted self (it :: bl) cur p ↔
  spec_deleted self [it] cur p ∨ spec_deleted self bl cur p.
Proof.
  unfold spec_deleted, keys. csimpl. setoid_rewrite elem_of_cons.
  setoid_rewrite elem_of_nil. naive_solver.
Qed.

Lemma check_baseline_entry_spec self cur ch it ch' :
  check_baseline_entry self cur ch it = Ok ch' →
  added ch' = added ch ∧
  (∀ e, e ∈ modified ch' ↔ e ∈ modified ch ∨ spec_modified self [it] cur e) ∧
  (∀ p, p ∈ deleted ch' ↔ p ∈ deleted ch ∨ spec_deleted self [it] cur p).
Proof.
  destruct it as [p info]. unfold check_baseline_entry.
  assert (Hm : ∀ e, spec_modified self [(p, info)] cur e → Modified.file e = p).
  { intros e (? & ? & ?%list_elem_of_singleton & _). by simplify_eq. }
  assert (Hd : ∀ q, spec_deleted self [(p, info)] cur q → q = p).
  { intros q (?%list_elem_of_singleton & _). done. }
  case_bool_decide as Hign.
  { intros [= <-]. split; [done|]. split.
    - intros e. split; [auto|]. intros [|He]; [done|]. exfalso.
      pose proof (Hm _ He) as <-. by destruct He as (? & ? & _ & ? & _).
    - intros q. split; [auto|]. intros [|Hq]; [done|]. exfalso.
      pose proof (Hd _ Hq) as ->. by destruct Hq as (_ & ? & _). }
  destruct (dict_mem p cur) eqn:Hcur.
  - apply dict_mem_true in Hcur.
    assert (Hdel : ∀ q, ¬ spec_deleted self [(p, info)] cur q).
    { intros q Hq. pose proof (Hd _ Hq) as ->. by destruct Hq as (_ & _ & ?). }
    destruct (proj2 (dict_get_is_Some p cur) Hcur) as [ci Hci].
    unfold dict_getitem. rewrite Hci. simpl.
    destruct (getitem info "hash") as [oh|] eqn:Hoh; simpl; [|done].
    destruct (str_ne (Info.hash ci) oh) eqn:Hne; simpl.
    + destruct (getitem info "size") as [osz|] eqn:Hosz; simpl; [|done].
      intros [= <-]; simpl. split; [done|]. split; [|naive_solver].
      intros e. rewrite elem_of_app, list_elem_of_singleton.
      split; (intros [?|He]; [by left|right]).
      * subst e. exists info, ci. simpl. split_and!; try done. apply list_elem_of_here.
      * pose proof (Hm _ He) as Hf.
        destruct He as (info' & ci' & Hin%list_elem_of_singleton & _ & Hci'
                        & Hoh' & Hosz' & _ & Hnh & Hns).
        destruct e; simpl in *. simplify_eq. congruence.
    + intros [= <-]. split; [done|]. split; [|naive_solver].
      intros e. split; [auto|]. intros [|He]; [done|]. exfalso.
      pose proof (Hm _ He) as Hf.
      destruct He as (info' & ci' & Hin%list_elem_of_singleton & _ & Hci'
                      & Hoh' & _ & Hne' & _).
      simplify_eq. congruence.
  - apply dict_mem_false in Hcur. intros [= <-]; simpl. split; [done|]. split.
    + intros e. split; [auto|]. intros [|He]; [done|]. exfalso.
      pose proof (Hm _ He) as Hf.
      destruct He as (_ & ci' & _ & _ & Hci' & _). subst p.
      apply Hcur, dict_get_is_Some. eauto.
    + intros q. rewrite elem_of_app, list_elem_of_singleton.
      split; (intros [?|Hq]; [by left|right]); [|by apply Hd].
      subst q. split_and!; try done. unfold keys. csimpl. apply list_elem_of_here.
Qed.

Lemma baseline_loop_spec self cur bl ch ch' :
  baseline_loop self cur bl ch = (ch', None) →
  added ch' = added ch ∧
  (∀ e, e ∈ modified ch' ↔ e ∈ modified ch ∨ spec_modified self bl cur e) ∧
  (∀ p, p ∈ deleted ch' ↔ p ∈ deleted ch ∨ spec_deleted self bl cur p).
Proof.
  unfold baseline_loop. revert ch.
  induction bl as [|it bl IH]; intros ch; simpl.
  - intros [= <-]. pose proof (spec_modified_nil self cur).
    pose proof (spec_deleted_nil self cur). naive_solver.
  - destruct (check_baseline_entry self cur ch it) as [ch1|] eqn:Hstep;
      simpl; [|done].
    intros (Ha & Hm & Hd)%IH.
    apply check_baseline_entry_spec in Hstep as (Ha1 & Hm1 & Hd1).
    split; [congruence|]. split.
    + intros e. rewrite Hm, Hm1, (spec_modified_cons _ it bl). tauto.
    + intros p. rewrite Hd, Hd1, (spec_deleted_cons _ it bl). tauto.
Qed.

Lemma validate_entries_cons it bl :
  validate_entries (it :: bl) = Ok () ↔
  validate_entry it = Ok () ∧ validate_entries bl = Ok ().
Proof.
  change (validate_entries (it :: bl))
    with (validate_entry it ≫= λ _, validate_entries bl).
  destruct (validate_entry it) as [[]|]; simpl; naive_solver.
Qed.

Lemma baseline_loop_valid self cur bl ch :
  validate_entries bl = Ok () → ∃ ch', baseline_loop self cur bl ch = (ch', None).
Proof.
  unfold baseline_loop. revert ch.
  induction bl as [|[p info] bl IH]; intros ch; [simpl; eauto|].
  intros [Hv Hbl]%validate_entries_cons.
  apply validate_entry_Ok in Hv as (d & -> & Hkeys).
  assert (∃ ch1, check_baseline_entry self cur ch (p, JObj d) = Ok ch1)
    as [ch1 Hch1]; [|cbn [for_each]; rewrite Hch1; simpl; eauto].
  unfold check_baseline_entry. case_bool_decide; [eauto|].
  destruct (dict_mem p cur) eqn:Hcur; [|eauto].
  apply dict_mem_true, dict_get_is_Some in Hcur as [ci Hci].
  unfold dict_getitem at 1. rewrite Hci. simpl.
  unfold required_keys in Hkeys.
  repeat (apply Forall_cons in Hkeys as [?%dict_get_is_Some Hkeys]).
  unfold dict_getitem.
  destruct (dict_get "hash" d) as [oh|] eqn:Hoh; [|by destruct H0]. simpl.
  destruct (dict_get "size" d) as [osz|] eqn:Hosz; [|by destruct H1]. simpl.
  destruct (str_ne _ _); eauto.
Qed.

Lemma check_current_entry_spec bl cur ch p :
  p ∈ keys cur →
  ∃ ch', check_current_entry bl cur ch p = Ok ch' ∧
    modified ch' = modified ch ∧ deleted ch' = deleted ch ∧
    ∀ a, a ∈ added ch' ↔ a ∈ added ch ∨ (Added.file a = p ∧ spec_added bl cur a).
Proof.
  intros [ci Hci]%dict_get_is_Some. unfold check_current_entry.
  destruct (dict_mem p bl) eqn:Hbl; simpl.
  - apply dict_mem_true in Hbl. exists ch. split_and!; try done.
    intros a. split; [auto|]. intros [|[<- [? _]]]; done.
  - apply dict_mem_false in Hbl. unfold dict_getitem. rewrite Hci. simpl.
    eexists. split_and!; try done. simpl.
    intros a. rewrite elem_of_app, list_elem_of_singleton.
    split; (intros [?|Ha]; [by left|right]).
    + subst a. simpl. split; [done|]. split; [done|]. exists ci. done.
    + destruct Ha as (<- & _ & ci' & Hci' & ? & ?).
      destruct a; simpl in *. simplify_eq. done.
Qed.

Lemma current_loop_spec bl cur ks ch :
  ks ⊆ keys cur →
  ∃ ch', current_loop bl cur ks ch = (ch', None) ∧
    modified ch' = modified ch ∧ deleted ch' = deleted ch ∧
    ∀ a, a ∈ added ch' ↔ a ∈ added ch ∨ (Added.file a ∈ ks ∧ spec_added bl cur a).
Proof.
  unfold current_loop. revert ch.
  induction ks as [|p ks IH]; intros ch Hks.
  - exists ch. split_and!; try done. intros a. rewrite elem_of_nil. tauto.
  - destruct (check_current_entry_spec bl cur ch p) as (ch1 & Hch1 & Hm1 & Hd1 & Ha1).
    { apply Hks. apply list_elem_of_here. }
    destruct (IH ch1) as (ch' & Hch' & Hm & Hd & Ha).
    { intros q Hq. apply Hks. by apply list_elem_of_further. }
    exists ch'. cbn [for_each]. rewrite Hch1. simpl. split_and!; try congruence.
    intros a. rewrite Ha, Ha1, elem_of_cons. tauto.
Qed.

(** What [compare_states] computes on a baseline that passes the checks
    of [load_baseline]: it returns, and the three lists hold exactly the
    entries the specification calls for. *)
Lemma compare_states_spec self cur bl :
  baseline self = JObj bl →
  validate_entries bl = Ok () →
  ∃ ch, compare_states self cur = Ok ch ∧
    (∀ e, e ∈ modified ch ↔ spec_modified self bl cur e) ∧
    (∀ a, a ∈ added ch ↔ spec_added bl cur a) ∧
    (∀ p, p ∈ deleted ch ↔ spec_deleted self bl cur p).
Proof.
  intros Hb Hvalid. unfold compare_states. rewrite Hb. simpl.
  destruct (baseline_loop_valid self cur bl no_changes Hvalid) as [ch1 Hch1].
  fold (baseline_loop self cur). rewrite Hch1.
  apply baseline_loop_spec in Hch1 as (Ha1 & Hm1 & Hd1).
  destruct (current_loop_spec bl cur (keys cur) ch1) as (ch & Hch & Hm & Hd & Ha);
    [done|].
  fold (current_loop bl cur). rewrite Hch. exists ch. split; [done|].
  split_and!.
  - intros e. rewrite Hm, Hm1. simpl. rewrite elem_of_nil. tauto.
  - intros a. rewrite Ha, Ha1. simpl. rewrite elem_of_nil.
    split; [tauto|]. intros Hs. right. split; [|done].
    destruct Hs as (_ & ci & Hci & _). apply dict_get_is_Some. eauto.
  - intros p. rewrite Hd, Hd1. simpl. rewrite elem_of_nil. tauto.
Qed.
End compare.

(** ** Paths *)

Section paths.
Implicit Types (s t p : string) (c : ascii).

Lemma append_cons c s t : String c s +:+ t = String c (s +:+ t).
Proof. done. Qed.

Lemma append_nil_l t : "" +:+ t = t.
Proof. done. Qed.

Lemma length_append s t :
  String.length (s +:+ t) = (String.length s + String.length t)%nat.
Proof. induction s as [|c s IH]; [done|]. rewrite append_cons. simpl. by rewrite IH. Qed.

Lemma append_cancel_r s1 s2 t : s1 +:+ t = s2 +:+ t → s1 = s2.
Proof.
  revert s2. induction s1 as [|c s1 IH]; intros [|c2 s2] H.
  - done.
  - apply (f_equal String.length) in H. rewrite !length_append in H.
    simpl in H. lia.
  - apply (f_equal String.length) in H. rewrite !length_append in H.
    simpl in H. lia.
  - rewrite !append_cons in H. injection H as -> H. f_equal. by apply IH.
Qed.

Lemma contains_slash_append s t :
  contains_slash (s +:+ t) = contains_slash s || contains_slash t.
Proof.
  induction s as [|c s IH]; [done|]. rewrite append_cons. simpl.
  by rewrite IH, orb_assoc.
Qed.

Lemma basename_no_slash p : contains_slash p = false → os_path_basename p = p.
Proof.
  destruct p as [|c p]; [done|]. simpl.
  intros [Hc ->]%orb_false_iff. by rewrite Hc.
Qed.

Lemma basename_after_slash s t :
  os_path_basename (s +:+ "/" +:+ t) = os_path_basename t.
Proof.
  induction s as [|c s IH].
  - rewrite append_nil_l. change ("/" +:+ t) with (String "/" t). simpl.
    destruct (contains_slash t) eqn:Ht; [done|]. by rewrite basename_no_slash.
  - rewrite append_cons. simpl. rewrite contains_slash_append. simpl.
    by rewrite orb_true_r.
Qed.

Lemma basename_join root name :
  contains_slash name = false → os_path_basename (os_path_join root name) = name.
Proof.
  intros H. unfold os_path_join. case_decide.
  - by apply basename_no_slash.
  - rewrite basename_after_slash. by apply basename_no_slash.
Qed.

Lemma valid_name_spec name :
  valid_name name = true ↔ name ≠ "" ∧ contains_slash name = false.
Proof.
  unfold valid_name. rewrite andb_true_iff, !negb_true_iff, bool_decide_eq_false.
  done.
Qed.

Lemma join_nonempty root name : name ≠ "" → os_path_join root name ≠ "".
Proof.
  intros H. unfold os_path_join. case_decide; [done|].
  destruct root; done.
Qed.

Lemma relpath_of_snoc path name :
  relpath_of (path ++ [name]) = os_path_join (relpath_of path) name.
Proof. apply foldl_snoc. Qed.

Lemma relpath_of_empty path :
  Forall (λ n, valid_name n = true) path → relpath_of path = "" → path = [].
Proof.
  destruct path as [|n path _] using rev_ind; [done|].
  intros [_ [Hn _]%Forall_singleton%valid_name_spec]%Forall_app.
  rewrite relpath_of_snoc. intros ?. by destruct (join_nonempty (relpath_of path) n).
Qed.

Lemma basename_relpath_of path name :
  contains_slash name = false →
  os_path_basename (relpath_of (path ++ [name])) = name.
Proof. intros. rewrite relpath_of_snoc. by apply basename_join. Qed.

Lemma relpath_of_inj path1 path2 :
  Forall (λ n, valid_name n = true) path1 →
  Forall (λ n, valid_name n = true) path2 →
  relpath_of path1 = relpath_of path2 → path1 = path2.
Proof.
  revert path2. induction path1 as [|n1 path1 IH] using rev_ind; intros path2 H1 H2 Heq.
  - symmetry. by apply relpath_of_empty.
  - destruct path2 as [|n2 path2 _] using rev_ind.
    { by apply relpath_of_empty. }
    apply Forall_app in H1 as [H1 [Hn1 Hs1]%Forall_singleton%valid_name_spec].
    apply Forall_app in H2 as [H2 [Hn2 Hs2]%Forall_singleton%valid_name_spec].
    assert (n1 = n2) as <-.
    { rewrite <-(basename_relpath_of path1 n1), <-(basename_relpath_of path2 n2) by done.
      by rewrite Heq. }
    f_equal. apply IH; [done..|].
    rewrite !relpath_of_snoc in Heq. unfold os_path_join in Heq.
    destruct (decide (relpath_of path1 = "")) as [E1|E1],
             (decide (relpath_of path2 = "")) as [E2|E2].
    + congruence.
    + exfalso. apply (f_equal contains_slash) in Heq.
      rewrite !contains_slash_append in Heq. simpl in Heq.
      rewrite orb_true_r in Heq. congruence.
    + exfalso. apply (f_equal contains_slash) in Heq.
      rewrite !contains_slash_append in Heq. simpl in Heq.
      rewrite orb_true_r in Heq. congruence.
    + by apply append_cancel_r in Heq.
Qed.

End paths.

(** ** Directory trees *)

Section trees.
Implicit Types (top n : node) (path : list string).

Lemma node_ind' (P : node → Prop) :
  (∀ f, P (File f)) →
  (∀ listable entries, Forall (λ e, P e.2) entries → P (Dir listable entries)) →
  ∀ n, P n.
Proof.
  intros Hfile Hdir. fix IH 1. intros [f|listable entries]; [apply Hfile|].
  apply Hdir. induction entries as [|[name c] entries IHentries];
    constructor; [apply IH | apply IHentries].
Qed.

Lemma valid_tree_Dir listable entries :
  valid_tree (Dir listable entries) = true ↔
  NoDup entries.*1 ∧
  ∀ name c, (name, c) ∈ entries → valid_name name = true ∧ valid_tree c = true.
Proof.
  cbn [valid_tree]. rewrite andb_true_iff, bool_decide_eq_true.
  rewrite <-Is_true_true, forallb_True, Forall_forall.
  split; intros [Hnd H]; (split; [done|]).
  - intros name c Hin. specialize (H _ Hin). simpl in H.
    by apply Is_true_true, andb_true_iff in H.
  - intros [name c] Hin. apply Is_true_true, andb_true_iff. by apply H.
Qed.

Lemma resolve_reach top path n : resolve top path = Some n → reach top path n.
Proof.
  revert top. induction path as [|name path IH]; intros top; simpl.
  - intros [= ->]. constructor.
  - destruct top as [f|listable entries]; [done|].
    destruct (dict_get name entries) as [c|] eqn:Hc; simpl; [|done].
    intros H. econstructor; [by apply dict_get_Some_elem | by apply IH].
Qed.

Lemma reach_resolve top path n :
  valid_tree top = true → reach top path n → resolve top path = Some n.
Proof.
  intros Hvalid Hreach. induction Hreach as [|listable entries name c path n Hin _ IH];
    [done|].
  apply valid_tree_Dir in Hvalid as [Hnd Hsub]. simpl.
  rewrite (dict_get_NoDup name c entries Hnd Hin). simpl.
  apply IH. by apply (Hsub name c).
Qed.

Lemma reach_valid top path n :
  valid_tree top = true → reach top path n →
  Forall (λ name, valid_name name = true) path ∧ valid_tree n = true.
Proof.
  intros Hvalid Hreach. induction Hreach as [|listable entries name c path n Hin _ IH];
    [by split|].
  apply valid_tree_Dir in Hvalid as [_ Hsub].
  destruct (Hsub name c Hin) as [Hname Hc]. destruct (IH Hc). by split; [constructor|].
Qed.

Lemma reach_app top path1 path2 n1 n2 :
  reach top path1 n1 → reach n1 path2 n2 → reach top (path1 ++ path2) n2.
Proof.
  induction 1 as [|listable entries name c path n Hin _ IH]; [done|].
  intros H. simpl. econstructor; [done|]. by apply IH.
Qed.

Lemma reach_entry listable entries name c :
  (name, c) ∈ entries → reach (Dir listable entries) [name] c.
Proof. intros. econstructor; [done|constructor]. Qed.

Lemma elem_of_filenames entries name f :
  (name, f) ∈ filenames entries ↔ (name, File f) ∈ entries.
Proof.
  unfold filenames. rewrite list_elem_of_omap. split.
  - intros ([name' [f'|]] & Hin & Heq); by simplify_eq.
  - intros Hin. by exists (name, File f).
Qed.

(** Every triple [os.walk] yields is the listing of a directory reached
    from the top through kept, listable directories. *)
Lemma os_walk_spec keep top root r dirs files :
  (r, dirs, files) ∈ os_walk keep root top →
  ∃ path entries,
    reach top path (Dir true entries) ∧
    Forall (λ d, keep d = true) path ∧
    r = foldl os_path_join root path ∧
    dirs = dirnames entries ∧ files = filenames entries.
Proof.
  revert root. induction top as [f|listable entries IH] using node_ind';
    intros root; simpl.
  - by intros ?%elem_of_nil.
  - destruct listable; [|by intros ?%elem_of_nil].
    intros [Heq|Hin]%elem_of_cons.
    + simplify_eq. exists [], entries. split_and!; try done. constructor.
    + apply list_elem_of_bind in Hin as ([name c] & Hin & Hentry).
      rewrite Forall_forall in IH. specialize (IH _ Hentry). simpl in IH.
      destruct c as [f|listable' entries']; [by apply elem_of_nil in Hin|].
      destruct (keep name) eqn:Hkeep; [|by apply elem_of_nil in Hin].
      apply IH in Hin as (path & es & Hreach & Hkept & -> & -> & ->).
      exists (name :: path), es. split_and!; try done.
      * econstructor; done.
      * by constructor.
Qed.

End trees.

Lemma elem_of_dict_set {V} k (v : V) d kv :
  kv ∈ dict_set k v d → kv = (k, v) ∨ kv ∈ d.
Proof.
  induction d as [|[k0 v0] d IH]; simpl.
  - intros ?%list_elem_of_singleton. by left.
  - destruct (decide (k0 = k)) as [->|Hne]; rewrite !elem_of_cons; naive_solver.
Qed.

Lemma for_each_invariant {S A} (P : S → Prop) (body : S → A → S * option exn) l s :
  P s → (∀ s a, a ∈ l → P s → P (body s a).1) → P (for_each body l s).1.
Proof.
  revert s. induction l as [|a l IH]; intros s Hs Hbody; simpl; [done|].
  pose proof (Hbody s a (list_elem_of_here _ _) Hs) as Hstep.
  destruct (body s a) as [s' [e|]]; [done|].
  apply IH; [done|]. intros s0 a0 Hin. apply Hbody. by apply list_elem_of_further.
Qed.

Section scan.
Variable sha256_hexdigest : list byte → string.
Implicit Types (self : FileIntegrityMonitor) (fs : filesystem) (top : node).

Lemma scan_file_scanned self top path name f files_data :
  reach top (path ++ [name]) (File f) →
  Forall (λ d, keep_dir d = true) path →
  (∀ p info, (p, info) ∈ files_data → scanned sha256_hexdigest self top p info) →
  ∀ p info,
    (p, info) ∈ (scan_file sha256_hexdigest self
                   (os_path_basename (baseline_file self))
                   (relpath_of path) files_data (name, f)).1 →
    scanned sha256_hexdigest self top p info.
Proof.
  intros Hreach Hkept Hinv p info. unfold scan_file.
  destruct (startswith_dot name) eqn:Hdot; simpl; [by apply Hinv|].
  case_bool_decide as Hbase; simpl; [by apply Hinv|].
  case_bool_decide as Hign; simpl; [by apply Hinv|].
  destruct (get_file_info sha256_hexdigest self f) as [[fi|]|e] eqn:Hinfo; simpl.
  - unfold str_truthy. case_bool_decide as Hhash; simpl; [by apply Hinv|].
    intros [[= -> ->]|Hin]%elem_of_dict_set; [|by apply Hinv].
    exists path, name, f. rewrite relpath_of_snoc. by split_and!.
  - by apply Hinv.
  - destruct (is_Exception e); by apply Hinv.
Qed.

Lemma scan_directory_scanned self fs directory top files_data :
  fs directory = Some top →
  scan_directory sha256_hexdigest self fs directory = Ok files_data →
  ∀ p info, (p, info) ∈ files_data → scanned sha256_hexdigest self top p info.
Proof.
  intros Hfs. unfold scan_directory, _validate_directory. rewrite Hfs.
  destruct top as [f|[] entries];
    try by (simpl; intros [= <-] ?? ?%elem_of_nil).
  cbv beta iota zeta.
  match goal with
  | |- context [for_each ?b ?w []] => set (body := b); set (walk := w)
  end.
  assert (Hinv : ∀ p info, (p, info) ∈ (for_each body walk []).1 →
                           scanned sha256_hexdigest self (Dir true entries) p info).
  { apply (for_each_invariant
             (λ d, ∀ p info, (p, info) ∈ d → scanned sha256_hexdigest self (Dir true entries) p info)).
    { by intros ?? ?%elem_of_nil. }
    intros d [[root dirs] files] Hin Hd.
    apply os_walk_spec in Hin as (path & es & Hreach & Hkept & -> & -> & ->).
    unfold body.
    apply (for_each_invariant
             (λ d, ∀ p info, (p, info) ∈ d → scanned sha256_hexdigest self (Dir true entries) p info));
      [done|].
    intros d' [name f] Hin%elem_of_filenames Hd'.
    apply scan_file_scanned; [|done..].
    eapply reach_app; [done|]. by apply reach_entry. }
  destruct (for_each body walk []) as [d [e|]]; simpl in Hinv.
  - destruct (is_KeyboardInterrupt e); [done|].
    destruct (is_Exception e); [|done]. by intros [= <-].
  - by intros [= <-].
Qed.


Lemma scan_directory_no_directory self fs directory :
  (∀ entries, fs directory ≠ Some (Dir true entries)) →
  scan_directory sha256_hexdigest self fs directory = Ok [].
Proof.
  intros H. unfold scan_directory, _validate_directory.
  destruct (fs directory) as [[f|[] entries]|]; try done. by destruct (H entries).
Qed.

Lemma get_file_info_Some self f info :
  get_file_info sha256_hexdigest self f = Ok (Some info) →
  calculate_hash sha256_hexdigest self f = Ok (Some (Info.hash info)).
Proof.
  unfold get_file_info. destruct (os_stat f) as [st|e]; simpl.
  - destruct (calculate_hash sha256_hexdigest self f) as [[h|]|e]; simpl.
    + by intros [= <-].
    + done.
    + by repeat case_match.
  - by repeat case_match.
Qed.

Lemma keep_dir_not_hidden d : keep_dir d = true → startswith_dot d = false.
Proof. unfold keep_dir. by intros [?%negb_true_iff _]%andb_true_iff. Qed.

Lemma scan_file_NoDup self baseline_filename root files_data entry :
  NoDup (keys files_data) →
  NoDup (keys (scan_file sha256_hexdigest self baseline_filename root
                         files_data entry).1).
Proof.
  intros Hnd. destruct entry as [name f]. unfold scan_file.
  destruct (_ || _); simpl; [done|].
  destruct (get_file_info sha256_hexdigest self f) as [[fi|]|e]; simpl.
  - destruct (str_truthy _); simpl; [by apply dict_set_NoDup|done].
  - done.
  - by destruct (is_Exception e).
Qed.

(** The mapping [scan_directory] returns has each key once. *)
Lemma scan_directory_NoDup self fs directory files_data :
  scan_directory sha256_hexdigest self fs directory = Ok files_data →
  NoDup (keys files_data).
Proof.
  unfold scan_directory.
  destruct (_validate_directory fs directory) as [top|e].
  - cbv beta iota zeta.
    match goal with
    | |- context [for_each ?b ?w []] => set (body := b); set (walk := w)
    end.
    assert (Hinv : NoDup (keys (for_each body walk []).1)).
    { apply (for_each_invariant (λ d, NoDup (keys d))); [apply NoDup_nil_2|].
      intros d [[root dirs] files] _ Hd. unfold body.
      apply (for_each_invariant (λ d, NoDup (keys d))); [done|].
      intros d' entry _ Hd'. by apply scan_file_NoDup. }
    destruct (for_each body walk []) as [d [e|]]; simpl in Hinv.
    + destruct (is_KeyboardInterrupt e); [done|].
      destruct (is_Exception e); [|done]. by intros [= <-].
    + by intros [= <-].
  - destruct (is_Exception e); [|done]. intros [= <-]. apply NoDup_nil_2.
Qed.
(** A path whose last name is ignored, or that passes through a hidden
    directory, is not the path of a scanned entry. *)
Lemma scanned_not_excluded self top p info :
  valid_tree top = true →
  scanned sha256_hexdigest self top p info →
  (os_path_basename p ∉ ignore_files self) ∧
  ∀ path name,
    p = relpath_of (path ++ [name]) →
    Forall (λ n, valid_name n = true) (path ++ [name]) →
    Forall (λ d, startswith_dot d = false) path.
Proof.
  intros Hvalid (path0 & name0 & f & Hreach & -> & Hkept & _ & _ & Hign & _).
  destruct (reach_valid _ _ _ Hvalid Hreach) as [Hnames _]. split.
  - rewrite basename_relpath_of; [done|].
    apply Forall_app in Hnames as [_ Hn]. rewrite Forall_singleton in Hn.
    by apply valid_name_spec in Hn as [_ ?].
  - intros path name Heq Hnames'.
    apply relpath_of_inj in Heq; [|done..].
    apply app_inj_tail in Heq as [<- _].
    eapply Forall_impl; [exact Hkept|]. apply keep_dir_not_hidden.
Qed.

End scan.

(** ** The changeset *)

Section check_changes_facts.
Variable sha256_hexdigest : list byte → string.
Implicit Types (self : FileIntegrityMonitor) (fs : filesystem)
  (cur : dict Info.t) (bl : dict json) (ch : Changes) (p : string).

Lemma check_changes_Ok self fs directory cur ch :
  scan_directory sha256_hexdigest self fs directory = Ok cur →
  compare_states self cur = Ok ch →
  check_changes sha256_hexdigest self fs directory = Ok (ch, cur).
Proof.
  intros Hscan Hcmp. unfold check_changes, check_changes_attempt.
  rewrite Hscan. simpl. by rewrite Hcmp.
Qed.

Lemma validate_baseline_JObj self bl :
  baseline self = JObj bl →
  validate_baseline (baseline self) = Ok () → validate_entries bl = Ok ().
Proof. by intros ->. Qed.

Lemma validate_entries_elem bl p info :
  validate_entries bl = Ok () → (p, info) ∈ bl →
  ∃ d, info = JObj d ∧ Forall (λ k, k ∈ keys d) required_keys.
Proof.
  induction bl as [|it bl IH]; [by intros _ ?%elem_of_nil|].
  intros [Hit Hbl]%validate_entries_cons [<-|Hin]%elem_of_cons; [|by apply IH].
  by apply (validate_entry_Ok p).
Qed.

Lemma valid_getitem bl p info k :
  validate_entries bl = Ok () → (p, info) ∈ bl → k ∈ required_keys →
  ∃ v, getitem info k = Ok v.
Proof.
  intros Hbl Hin Hk. destruct (validate_entries_elem _ _ _ Hbl Hin) as (d & -> & Hd).
  apply getitem_valid. exists d. split; [done|].
  rewrite Forall_forall in Hd. by apply Hd.
Qed.

(** C1. For a baseline that passes the checks of [load_baseline] and the
    mapping [cur] of the current scan, [check_changes] returns a changeset
    whose three lists hold exactly the entries the three steps of the
    differ call for: a modified entry, with old and new hash and size,
    for each baseline path that is not ignored by basename, is in [cur]
    and has a different hash there; a deleted entry for each such path
    that is not in [cur]; an added entry, with hash and size, for each
    path of [cur] that is not in the baseline; and no entry for a path
    that is in both with equal hashes. *)
Theorem check_changes_classifies self fs directory cur bl :
  scan_directory sha256_hexdigest self fs directory = Ok cur →
  baseline self = JObj bl →
  validate_baseline (baseline self) = Ok () →
  ∃ ch,
    check_changes sha256_hexdigest self fs directory = Ok (ch, cur) ∧
    (∀ e, e ∈ modified ch ↔ spec_modified self bl cur e) ∧
    (∀ p, p ∈ deleted ch ↔ spec_deleted self bl cur p) ∧
    (∀ a, a ∈ added ch ↔ spec_added bl cur a) ∧
    (∀ p, same_hash bl cur p → in_none ch p).
Proof.
  intros Hscan Hb Hvalid. pose proof (validate_baseline_JObj _ _ Hb Hvalid) as Hbl.
  destruct (compare_states_spec self cur bl Hb Hbl) as (ch & Hcmp & Hm & Ha & Hd).
  exists ch. split; [by apply check_changes_Ok|]. split_and!; try done.
  intros p (Hp & ci & Hci & Hsame). split_and!.
  - intros (e & -> & He%Hm)%list_elem_of_fmap.
    destruct He as (info & ci' & Hin & _ & Hci' & Hoh & _ & Hne & _).
    destruct (Hsame _ Hin) as (oh & Hoh' & Heq). simplify_eq. congruence.
  - intros (a & -> & [Hnot _]%Ha)%list_elem_of_fmap. done.
  - intros (_ & _ & Hcur)%Hd. apply Hcur, dict_get_is_Some. eauto.
Qed.


Lemma in_modified_spec self bl cur ch p :
  (∀ e, e ∈ modified ch ↔ spec_modified self bl cur e) →
  in_modified ch p → 
  p ∈ keys bl ∧ (os_path_basename p ∉ ignore_files self) ∧ p ∈ keys cur ∧
  ¬ same_hash bl cur p.
Proof.
  intros Hm (e & -> & He%Hm)%list_elem_of_fmap.
  destruct He as (info & ci & Hin & Hign & Hci & Hoh & _ & Hne & _).
  split_and!; [by eapply elem_keys | done | apply dict_get_is_Some; eauto |].
  intros (_ & ci' & Hci' & Hsame). destruct (Hsame _ Hin) as (oh & Hoh' & Heq).
  simplify_eq. congruence.
Qed.

Lemma in_added_spec bl cur ch p :
  (∀ a, a ∈ added ch ↔ spec_added bl cur a) →
  in_added ch p ↔ (p ∉ keys bl) ∧ p ∈ keys cur.
Proof.
  intros Ha. unfold in_added. rewrite list_elem_of_fmap. split.
  - intros (a & -> & [Hnot (ci & Hci & _)]%Ha). split; [done|].
    apply dict_get_is_Some; eauto.
  - intros [Hnot [ci Hci]%dict_get_is_Some].
    exists {| Added.file := p; Added.hash := Info.hash ci;
              Added.size := Info.size ci |}.
    split; [done|]. apply Ha. split; [done|]. by exists ci.
Qed.

(** C2, as the code has it.  For a baseline that passes the checks of
    [load_baseline], the changeset of [check_changes] puts no path in
    more than one of its three sequences; a path of the baseline whose
    basename is in the ignore set is in none of them; and every other
    path of the union of the two key sets is in none when it is in both
    mappings with equal hashes, and in exactly one otherwise. *)
Theorem check_changes_partitions_unignored self fs directory cur bl :
  scan_directory sha256_hexdigest self fs directory = Ok cur →
  baseline self = JObj bl →
  validate_baseline (baseline self) = Ok () →
  ∃ ch,
    check_changes sha256_hexdigest self fs directory = Ok (ch, cur) ∧
    partitions_unignored self bl cur ch ∧
    (∀ p, in_none ch p ∨ in_exactly_one ch p).
Proof.
  intros Hscan Hb Hvalid. pose proof (validate_baseline_JObj _ _ Hb Hvalid) as Hbl.
  destruct (compare_states_spec self cur bl Hb Hbl) as (ch & Hcmp & Hm & Ha & Hd).
  exists ch. split; [by apply check_changes_Ok|].
  pose proof (in_modified_spec self bl cur ch) as HM.
  pose proof (in_added_spec bl cur ch) as HA.
  assert (HD : ∀ p, in_deleted ch p ↔
                    p ∈ keys bl ∧ (os_path_basename p ∉ ignore_files self) ∧
                    (p ∉ keys cur)) by apply Hd.
  assert (Hcases : ∀ p, in_none ch p ∨ in_exactly_one ch p).
  { intros p. unfold in_none, in_exactly_one.
    destruct (decide (p ∈ Modified.file <$> modified ch)) as [Hpm|Hpm].
    { destruct (HM p Hm Hpm) as (? & ? & ? & _). right. left.
      rewrite HA, HD by done. tauto. }
    destruct (decide (p ∈ keys bl)), (decide (p ∈ keys cur)),
      (decide (os_path_basename p ∈ ignore_files self));
      rewrite HA, HD by done; tauto. }
  split; [|done]. intros p Hunion.
  assert (Hmod : p ∈ keys bl → (os_path_basename p ∉ ignore_files self) →
                 p ∈ keys cur → ¬ same_hash bl cur p → in_modified ch p).
  { intros Hpbl Hign [ci Hci]%dict_get_is_Some Hdiff.
    destruct (decide (p ∈ Modified.file <$> modified ch)) as [|Hpm]; [done|].
    destruct Hdiff. split; [done|]. exists ci. split; [done|].
    intros info Hin.
    destruct (valid_getitem bl p info "hash" Hbl Hin) as [oh Hoh];
      [set_solver|].
    destruct (valid_getitem bl p info "size" Hbl Hin) as [osz Hosz];
      [set_solver|].
    exists oh. split; [done|].
    destruct (str_ne (Info.hash ci) oh) eqn:Hne; [|done].
    destruct Hpm. apply list_elem_of_fmap.
    exists {| Modified.file := p; Modified.old_hash := oh;
              Modified.new_hash := Info.hash ci; Modified.old_size := osz;
              Modified.new_size := Info.size ci |}.
    split; [done|]. apply Hm. by exists info, ci. }
  assert (Hsame : same_hash bl cur p → in_none ch p).
  { intros Hs. pose proof Hs as (Hpbl & ci & Hci & _).
    assert (p ∈ keys cur) by (apply dict_get_is_Some; eauto).
    unfold in_none. rewrite HA, HD by done.
    split_and!; [|tauto..]. intros Hpm. by destruct (HM p Hm Hpm) as (_ & _ & _ & ?). }
  split.
  - intros [Hpbl Hign]. unfold in_none. rewrite HA, HD by done.
    split_and!; [|tauto..]. intros Hpm. by destruct (HM p Hm Hpm) as (_ & ? & _).
  - intros Hunign. split; [done|]. intros Hdiff.
    destruct (Hcases p) as [(Hnm & Hna & Hnd)|]; [|done]. exfalso.
    rewrite HA in Hna by done. rewrite HD in Hnd.
    destruct (decide (p ∈ keys bl)), (decide (p ∈ keys cur)),
      (decide (os_path_basename p ∈ ignore_files self)); try tauto.
Qed.

(** C10.  Whenever the body of [check_changes] raises an [Exception], be
    it in the scan or in the comparison, [check_changes] returns the
    empty changeset and an empty current state.  A monitor with an empty
    baseline looking at an empty directory gets the very same value
    without any error. *)
Theorem check_changes_hides_errors self fs directory e :
  check_changes_attempt sha256_hexdigest self fs directory = Raise e →
  is_Exception e = true →
  check_changes sha256_hexdigest self fs directory = Ok (no_changes, []) ∧
  ∃ self' fs',
    check_changes_attempt sha256_hexdigest self' fs' directory
      = Ok (no_changes, []) ∧
    check_changes sha256_hexdigest self' fs' directory = Ok (no_changes, []).
Proof.
  intros Hraise Hexn. split.
  - unfold check_changes. by rewrite Hraise, Hexn.
  - exists (set_baseline self (JObj [])), (λ _, Some (Dir true [])). done.
Qed.

End check_changes_facts.

(** ** The scan *)

Section scan_facts.
Variable sha256_hexdigest : list byte → string.
Implicit Types (self : FileIntegrityMonitor) (fs : filesystem)
  (top : node) (p : string).

Lemma scan_directory_not_excluded self fs directory files_data p :
  valid_root fs directory = true →
  scan_directory sha256_hexdigest self fs directory = Ok files_data →
  excluded self p → p ∉ keys files_data.
Proof.
  unfold valid_root. intros Hvalid Hscan Hex [info Hin]%dict_get_is_Some.
  apply dict_get_Some_elem in Hin.
  destruct (fs directory) as [top|] eqn:Hfs.
  - pose proof (scan_directory_scanned _ _ _ _ _ _ Hfs Hscan _ _ Hin) as Hsc.
    destruct (scanned_not_excluded _ _ _ _ _ Hvalid Hsc) as [Hign Hhid].
    destruct Hex as [?|(path & name & -> & Hnames & Hdot)]; [done|].
    specialize (Hhid _ _ eq_refl Hnames).
    apply Exists_exists in Hdot as (d & Hd & Hdot).
    rewrite Forall_forall in Hhid. specialize (Hhid _ Hd). congruence.
  - rewrite scan_directory_no_directory in Hscan by (intros ?; congruence).
    simplify_eq. by apply elem_of_nil in Hin.
Qed.

Lemma baseline_of_scan_valid (files_data : dict Info.t) :
  validate_baseline (baseline_of_scan files_data) = Ok ().
Proof.
  unfold baseline_of_scan. simpl.
  induction files_data as [|[p info] d IH]; [done|].
  apply validate_entries_cons. split; [done|exact IH].
Qed.

Lemma keys_baseline_of_scan (files_data : dict Info.t) :
  keys (prod_map id Info.to_json <$> files_data) = keys files_data.
Proof.
  unfold keys. rewrite <-list_fmap_compose. apply list_fmap_ext.
  by intros ? [].
Qed.

(** C4.  Take a baseline made by [scan_directory] and a later
    [check_changes] by the same monitor over the same directory, whatever
    the two trees hold.  A path whose basename is in the ignore set
    (which always has the log file's name), or that passes through a
    directory whose name starts with a dot, is a key of neither scan
    result and is in none of the three sequences of the changeset. *)
Theorem excluded_paths_never_reported self fs1 fs2 directory base cur p :
  valid_root fs1 directory = true →
  valid_root fs2 directory = true →
  scan_directory sha256_hexdigest self fs1 directory = Ok base →
  scan_directory sha256_hexdigest self fs2 directory = Ok cur →
  excluded self p →
  (∀ path ignore, "fim.log" ∈ ignore_files (__init__ path ignore)) ∧
  (p ∉ keys base) ∧ (p ∉ keys cur) ∧
  ∃ ch,
    check_changes sha256_hexdigest (set_baseline self (baseline_of_scan base))
                  fs2 directory = Ok (ch, cur) ∧
    in_none ch p.
Proof.
  intros Hv1 Hv2 Hbase Hcur Hex.
  pose proof (scan_directory_not_excluded _ _ _ _ _ Hv1 Hbase Hex) as Hpb.
  pose proof (scan_directory_not_excluded _ _ _ _ _ Hv2 Hcur Hex) as Hpc.
  split; [intros; simpl; set_solver|]. split; [done|]. split; [done|].
  set (self' := set_baseline self (baseline_of_scan base)).
  destruct (compare_states_spec self' cur (prod_map id Info.to_json <$> base))
    as (ch & Hcmp & Hm & Ha & Hd); [done|apply (baseline_of_scan_valid base)|].
  exists ch. split; [by apply check_changes_Ok|].
  rewrite <-keys_baseline_of_scan in Hpb. split_and!.
  - intros Hpm. by destruct (in_modified_spec _ _ _ _ _ Hm Hpm) as (? & _).
  - intros [_ ?]%(in_added_spec _ _ _ _ Ha). done.
  - intros (? & _)%Hd. done.
Qed.

(** C5.  Every record in the mapping [scan_directory] returns has a
    hash that is there and is not empty; and, in a valid tree, a file for
    which [calculate_hash] gives the skip signal has no entry in the
    mapping. *)
Theorem scan_records_have_hash self fs directory files_data :
  valid_root fs directory = true →
  scan_directory sha256_hexdigest self fs directory = Ok files_data →
  (∀ p info, (p, info) ∈ files_data →
     Info.hash info ≠ "" ∧
     ∃ f, calculate_hash sha256_hexdigest self f = Ok (Some (Info.hash info))) ∧
  (∀ top path name f,
     fs directory = Some top →
     resolve top (path ++ [name]) = Some (File f) →
     calculate_hash sha256_hexdigest self f = Ok None →
     relpath_of (path ++ [name]) ∉ keys files_data).
Proof.
  unfold valid_root. intros Hvalid Hscan. split.
  - intros p info Hin. destruct (fs directory) as [top|] eqn:Hfs.
    + destruct (scan_directory_scanned _ _ _ _ _ _ Hfs Hscan _ _ Hin)
        as (_ & _ & f & _ & _ & _ & _ & _ & _ & Hinfo & Hhash).
      split; [done|]. exists f. by apply get_file_info_Some.
    + rewrite scan_directory_no_directory in Hscan by (intros ?; congruence).
      simplify_eq. by apply elem_of_nil in Hin.
  - intros top path name f Hfs Hres Hskip [info Hin]%dict_get_is_Some.
    apply dict_get_Some_elem in Hin. rewrite Hfs in Hvalid.
    destruct (scan_directory_scanned _ _ _ _ _ _ Hfs Hscan _ _ Hin)
      as (path' & name' & f' & Hreach & Heq & _ & _ & _ & _ & Hinfo & _).
    apply resolve_reach in Hres as Hreach0.
    destruct (reach_valid _ _ _ Hvalid Hreach) as [Hnames' _].
    destruct (reach_valid _ _ _ Hvalid Hreach0) as [Hnames _].
    apply relpath_of_inj in Heq; [|done..]. rewrite <-Heq in Hreach.
    apply (reach_resolve _ _ _ Hvalid) in Hreach. simplify_eq.
    apply get_file_info_Some in Hinfo. congruence.
Qed.

(** C6.  When the directory argument does not exist, is not a directory,
    or cannot be listed, [_validate_directory] raises the matching error
    and [scan_directory] returns the empty mapping instead of raising. *)
Theorem scan_directory_bad_root self fs directory :
  (∀ entries, fs directory ≠ Some (Dir true entries)) →
  scan_directory sha256_hexdigest self fs directory = Ok [] ∧
  match fs directory with
  | None =>
      _validate_directory fs directory
      = Raise (ValueError ("Directory does not exist: " +:+ directory))
  | Some (File _) =>
      _validate_directory fs directory
      = Raise (ValueError ("Path is not a directory: " +:+ directory))
  | Some (Dir _ _) =>
      _validate_directory fs directory
      = Raise (PermissionError
                 ("No read permission for directory: " +:+ directory))
  end.
Proof.
  intros Hbad. split; [by apply scan_directory_no_directory|].
  unfold _validate_directory.
  destruct (fs directory) as [[f|[] entries]|]; try done. by destruct (Hbad entries).
Qed.

(** C7.  [calculate_hash] gives the skip signal, and raises nothing, when
    asking for the size or reading the file fails with a permission
    error, a missing file, or any other [Exception]; and when the size
    is strictly above the limit, which is 500 MiB for a new monitor.
    The loop of [scan_directory] then goes on to the next file with the
    mapping as it was. *)
Theorem calculate_hash_skips self f :
  max_file_size (__init__ (baseline_file self) None) = 524288000 ∧
  (∀ e, os_path_getsize f = Raise e → is_Exception e = true →
        calculate_hash sha256_hexdigest self f = Ok None) ∧
  (∀ n e, os_path_getsize f = Ok n → read_all f = Raise e →
          is_Exception e = true →
          calculate_hash sha256_hexdigest self f = Ok None) ∧
  (∀ n, os_path_getsize f = Ok n → n > max_file_size self →
        calculate_hash sha256_hexdigest self f = Ok None) ∧
  (calculate_hash sha256_hexdigest self f = Ok None →
   (∀ e, os_stat f = Raise e → is_Exception e = true) →
   ∀ baseline_filename root files_data name,
     scan_file sha256_hexdigest self baseline_filename root files_data (name, f)
     = (files_data, None)).
Proof.
  split; [done|]. split_and!.
  - intros e He Hexn. unfold calculate_hash. rewrite He. simpl.
    by destruct e.
  - intros n e Hn He Hexn. unfold calculate_hash. rewrite Hn. simpl.
    case_bool_decide; [done|]. rewrite He. simpl. by destruct e.
  - intros n Hn Hbig. unfold calculate_hash. rewrite Hn. simpl.
    by rewrite bool_decide_true.
  - intros Hskip Hstat bfn root files_data name. unfold scan_file.
    destruct (_ || _); [done|]. unfold get_file_info.
    destruct (os_stat f) as [st|e] eqn:Hst; simpl.
    + by rewrite Hskip.
    + specialize (Hstat e eq_refl). by destruct e.
Qed.

End scan_facts.

(** ** The baseline file *)

Section store_facts.
Variable sha256_hexdigest : list byte → string.
Implicit Types (self : FileIntegrityMonitor) (fs : filesystem)
  (disk : baseline_store).

Lemma json_load_members (B : dict Info.t) (acc : dict json) :
  NoDup (keys acc ++ keys B) →
  foldl (λ d '(k, v), dict_set k (json_load v) d) acc
        (prod_map id Info.to_json <$> B)
  = acc ++ (prod_map id Info.to_json <$> B).
Proof.
  revert acc. induction B as [|[p info] B IH]; intros acc Hnd; csimpl.
  - by rewrite app_nil_r.
  - rewrite dict_set_fresh.
    + rewrite IH; [by rewrite <-app_assoc|].
      unfold keys in *. rewrite fmap_app. csimpl. by rewrite <-app_assoc.
    + unfold keys in *. csimpl in Hnd.
      apply NoDup_app in Hnd as (_ & Hnd & _). intros Hp. apply (Hnd p Hp).
      apply list_elem_of_here.
Qed.

Lemma json_load_baseline_of_scan (B : dict Info.t) :
  NoDup (keys B) → json_load (baseline_of_scan B) = baseline_of_scan B.
Proof.
  intros Hnd. unfold baseline_of_scan. cbn [json_load]. f_equal.
  by rewrite json_load_members.
Qed.

(** C3.  Let [B] be a mapping from paths to records with the four fields,
    and let the baseline file be writable and readable.  Saving [B] as
    [create_baseline] does succeeds; [load_baseline] on the file so
    written succeeds and leaves in [self.baseline] a mapping equal to
    [B]: the same keys in the same order, each with the same four field
    values.  When [B] is what the scan of [create_baseline] returns, and
    is not empty, that is the file [create_baseline] writes. *)
Theorem save_load_roundtrip self self' (B : dict Info.t) disk :
  NoDup (keys B) →
  may_write disk = true →
  may_read disk = true →
  ∃ disk',
    save_baseline (set_baseline self (baseline_of_scan B)) disk = (true, disk') ∧
    load_baseline self' disk'
    = (Ok (true, None), set_baseline self' (baseline_of_scan B)) ∧
    (∀ fs directory,
       scan_directory sha256_hexdigest self fs directory = Ok B → B ≠ [] →
       create_baseline sha256_hexdigest self fs directory disk
       = (true, set_baseline self (baseline_of_scan B), disk')).
Proof.
  intros Hnd Hw Hr.
  exists {| stored := Some (JsonText (baseline_of_scan B));
            may_read := may_read disk; may_write := may_write disk |}.
  assert (Hsave : save_baseline (set_baseline self (baseline_of_scan B)) disk
    = (true, {| stored := Some (JsonText (baseline_of_scan B));
                may_read := may_read disk; may_write := may_write disk |})).
  { unfold save_baseline, write_json. rewrite Hw.
    unfold read_json. cbn [stored may_read baseline set_baseline json_dump].
    rewrite Hr, json_load_baseline_of_scan by done. simpl.
    by rewrite bool_decide_false by (by intros []). }
  split_and!; [done| |].
  - unfold load_baseline, os_path_exists, os_access_R_OK, read_json.
    cbn [stored may_read]. rewrite Hr.
    rewrite bool_decide_true by eauto. cbn [negb andb].
    rewrite json_load_baseline_of_scan by done.
    cbn [baseline set_baseline]. by rewrite baseline_of_scan_valid.
  - intros fs directory Hscan Hne. unfold create_baseline. rewrite Hscan.
    destruct B as [|entry B]; [done|]. cbn [negb truthy baseline_of_scan
      set_baseline baseline fmap list_fmap].
    by rewrite Hsave.
Qed.

(** C9.  When the scan returns the empty mapping, [create_baseline]
    returns [False] and leaves the baseline file as it was. *)
Theorem create_baseline_empty_scan self fs directory disk :
  scan_directory sha256_hexdigest self fs directory = Ok [] →
  create_baseline sha256_hexdigest self fs directory disk
  = (false, set_baseline self (JObj []), disk).
Proof. intros Hscan. unfold create_baseline. by rewrite Hscan. Qed.

Lemma validate_entry_cases p info :
  (validate_entry (p, info) = Ok () ∧ ¬ bad_entry info) ∨
  (bad_entry info ∧
   ∃ msg, validate_entry (p, info) = Raise (ValueError (msg +:+ p)) ∧
          msg ∈ ["Invalid entry for "; "Missing required keys for "]).
Proof.
  destruct (validate_entry (p, info)) as [[]|e] eqn:Hv.
  - left. split; [done|]. apply validate_entry_Ok in Hv as (d & -> & Hd).
    intros (k & Hk & Hnot). rewrite Forall_forall in Hd. by apply Hnot, Hd.
  - right. destruct info as [| | | | |d]; simpl in Hv; simplify_eq;
      try (split; [done|]; eexists; split; [done|set_solver]).
    change (dict_mem "hash" d && (dict_mem "size" d && (dict_mem "modified" d && (dict_mem "created" d && true))))
      with (forallb (λ k, dict_mem k d) required_keys) in Hv.
    destruct (forallb (λ k, dict_mem k d) required_keys) eqn:Hall; simplify_eq.
    split; [|eexists; split; [done|set_solver]].
    apply not_true_iff_false in Hall. rewrite <-Is_true_true, forallb_True in Hall.
    apply not_Forall_Exists in Hall; [|apply _].
    apply Exists_exists in Hall as (k & Hk & Hmem). exists k. split; [done|].
    simpl in Hmem. by rewrite Is_true_true, dict_mem_true in Hmem.
Qed.

Lemma validate_entries_bad d :
  (∃ p info, (p, info) ∈ d ∧ bad_entry info) →
  ∃ p info msg,
    (p, info) ∈ d ∧ bad_entry info ∧
    validate_entries d = Raise (ValueError (msg +:+ p)) ∧
    msg ∈ ["Invalid entry for "; "Missing required keys for "].
Proof.
  induction d as [|[p info] d IH].
  - by intros (? & ? & ?%elem_of_nil & _).
  - intros (p0 & info0 & Hin & Hbad).
    change (validate_entries ((p, info) :: d))
      with (validate_entry (p, info) ≫= λ _, validate_entries d).
    destruct (validate_entry_cases p info) as [[Hok Hgood]|(Hbad' & msg & Hv & Hmsg)].
    + rewrite Hok. simpl. apply elem_of_cons in Hin as [?|Hin]; [by simplify_eq|].
      destruct IH as (p1 & info1 & msg & Hin1 & ? & ? & ?); [by eauto|].
      exists p1, info1, msg. split_and!; try done. by apply list_elem_of_further.
    + rewrite Hv. simpl. exists p, info, msg. split_and!; try done.
      apply list_elem_of_here.
Qed.

(** C8.  Let the baseline file hold a document that parses.  If the
    parsed value is not a mapping, or some entry of it is not a mapping
    or lacks one of [hash], [size], [modified], [created], then
    [load_baseline] returns [False] and logs a format error; when the
    fault is in an entry, the error names the path of an offending
    entry.  [monitor_once] then stops without comparing anything. *)
Theorem load_baseline_rejects_bad_schema self disk doc :
  stored disk = Some (JsonText doc) →
  may_read disk = true →
  ((∀ d, json_load doc ≠ JObj d) ∨
   (∃ d p info, json_load doc = JObj d ∧ (p, info) ∈ d ∧ bad_entry info)) →
  ∃ msg,
    load_baseline self disk
    = (Ok (false, Some ("Invalid baseline format: " +:+ msg)),
       set_baseline self (json_load doc)) ∧
    (∀ d, json_load doc = JObj d →
       ∃ p info reason,
         (p, info) ∈ d ∧ bad_entry info ∧ msg = reason +:+ p ∧
         reason ∈ ["Invalid entry for "; "Missing required keys for "]) ∧
    (∀ fs directory,
       monitor_once sha256_hexdigest self fs directory disk
       = (Ok None, set_baseline self (json_load doc))).
Proof.
  intros Hstored Hread Hbad.
  assert (∃ msg,
    validate_baseline (json_load doc) = Raise (ValueError msg) ∧
    (∀ d, json_load doc = JObj d →
       ∃ p info reason,
         (p, info) ∈ d ∧ bad_entry info ∧ msg = reason +:+ p ∧
         reason ∈ ["Invalid entry for "; "Missing required keys for "]))
    as (msg & Hv & Hmsg).
  { destruct Hbad as [Hnot|(d & p & info & Hd & Hin & Hbad)].
    - exists "Invalid baseline format: expected dictionary". split.
      + destruct (json_load doc); try done. by destruct (Hnot members).
      + intros d Hd. by destruct (Hnot d).
    - destruct (validate_entries_bad d) as (p1 & info1 & reason & ? & ? & Hv & ?);
        [by eauto|].
      exists (reason +:+ p1). rewrite Hd. split; [done|].
      intros d' [= <-]. by exists p1, info1, reason. }
  assert (Hload : load_baseline self disk
    = (Ok (false, Some ("Invalid baseline format: " +:+ msg)),
       set_baseline self (json_load doc))).
  { unfold load_baseline, os_path_exists, os_access_R_OK, read_json.
    rewrite Hstored, Hread. rewrite bool_decide_true by eauto. cbn [negb andb].
    cbn [baseline set_baseline]. by rewrite Hv. }
  exists msg. split_and!; [done..|].
  intros fs directory. unfold monitor_once. by rewrite Hload.
Qed.

End store_facts.

(** * Further properties of the code *)

(** ** A scan compared with itself *)

Section own_scan.
Variable sha256_hexdigest : list byte → string.
Implicit Types (self : FileIntegrityMonitor) (fs : filesystem)
  (cur : dict Info.t) (p : string).

Lemma elem_of_baseline_of_scan cur p info :
  (p, info) ∈ prod_map id Info.to_json <$> cur ↔
  ∃ ci, (p, ci) ∈ cur ∧ info = Info.to_json ci.
Proof.
  rewrite list_elem_of_fmap. split.
  - intros ([p' ci] & [= -> ->] & Hin). by exists ci.
  - intros (ci & Hin & ->). by exists (p, ci).
Qed.

Lemma nil_if_no_elem {A} (l : list A) : (∀ x, x ∉ l) → l = [].
Proof. destruct l as [|x l]; [done|]. intros H. destruct (H x). left. Qed.

Lemma compare_states_own_scan self cur :
  NoDup (keys cur) →
  compare_states (set_baseline self (baseline_of_scan cur)) cur
  = Ok no_changes.
Proof.
  intros Hnd.
  set (self' := set_baseline self (baseline_of_scan cur)).
  destruct (compare_states_spec self' cur (prod_map id Info.to_json <$> cur))
    as (ch & Hcmp & Hm & Ha & Hd); [done|apply (baseline_of_scan_valid cur)|].
  rewrite Hcmp. f_equal. destruct ch as [ms adds dels]; simpl in *.
  unfold no_changes. f_equal; apply nil_if_no_elem.
  - intros e (info & ci & Hin & _ & Hci & Hoh & _ & Hne & _)%Hm.
    apply elem_of_baseline_of_scan in Hin as (ci' & Hin & ->).
    apply (dict_get_NoDup _ _ _ Hnd) in Hin. simplify_eq.
    unfold dict_getitem in Hoh. simpl in Hoh. injection Hoh as Hoh.
    rewrite <-Hoh in Hne. simpl in Hne. by rewrite bool_decide_true in Hne.
  - intros a [Hnot (ci & Hci & _)]%Ha. apply Hnot.
    rewrite keys_baseline_of_scan. apply dict_get_is_Some. eauto.
  - intros p (Hin & _ & Hnot)%Hd. by rewrite keys_baseline_of_scan in Hin.
Qed.

(** X1.  When the baseline is the mapping a scan of the directory
    returns and the directory has not changed, [check_changes] returns
    three empty lists, together with that same mapping. *)
Theorem check_changes_own_scan self fs directory cur :
  scan_directory sha256_hexdigest self fs directory = Ok cur →
  check_changes sha256_hexdigest (set_baseline self (baseline_of_scan cur))
                fs directory
  = Ok (no_changes, cur).
Proof.
  intros Hscan. apply check_changes_Ok; [done|].
  apply compare_states_own_scan. by eapply scan_directory_NoDup.
Qed.

End own_scan.

(** ** What escapes the scan *)

Lemma not_Exception e : is_Exception e = false → e = KeyboardInterrupt.
Proof. by destruct e. Qed.

Lemma for_each_no_exn {S A} (body : S → A → S * option exn) l s :
  (∀ s a, a ∈ l → (body s a).2 = None) → (for_each body l s).2 = None.
Proof.
  revert s. induction l as [|a l IH]; intros s Hbody; simpl; [done|].
  pose proof (Hbody s a (list_elem_of_here _ _)) as Hstep.
  destruct (body s a) as [s' [e|]]; [done|].
  apply IH. intros s0 a0 Hin. apply Hbody. by apply list_elem_of_further.
Qed.

Lemma interrupt_free_Dir listable entries :
  interrupt_free (Dir listable entries) = true ↔
  ∀ name c, (name, c) ∈ entries → interrupt_free c = true.
Proof.
  cbn [interrupt_free]. rewrite <-Is_true_true, forallb_True, Forall_forall.
  split.
  - intros H name c Hin. apply Is_true_true. apply (H _ Hin).
  - intros H [name c] Hin. apply Is_true_true. by apply (H name).
Qed.

Lemma reach_interrupt_free top path n :
  interrupt_free top = true → reach top path n → interrupt_free n = true.
Proof.
  intros Hfree Hreach.
  induction Hreach as [|listable entries name c path n Hin _ IH]; [done|].
  apply IH. by apply (proj1 (interrupt_free_Dir listable entries) Hfree name).
Qed.

Section escapes.
Variable sha256_hexdigest : list byte → string.
Implicit Types (self : FileIntegrityMonitor) (fs : filesystem).

Lemma calculate_hash_no_interrupt self f :
  interrupt_free_file f = true →
  ∃ r, calculate_hash sha256_hexdigest self f = Ok r.
Proof.
  unfold interrupt_free_file, calculate_hash.
  intros [[_ Hsize]%andb_true_iff Hread]%andb_true_iff.
  destruct (os_path_getsize f) as [n|e]; simpl.
  - case_bool_decide; [by eexists|].
    destruct (read_all f) as [data|e]; simpl; [by eexists|].
    rewrite Hread. repeat case_match; by eexists.
  - rewrite Hsize. repeat case_match; by eexists.
Qed.

Lemma get_file_info_no_interrupt self f :
  interrupt_free_file f = true →
  ∃ r, get_file_info sha256_hexdigest self f = Ok r.
Proof.
  intros Hfree. destruct (calculate_hash_no_interrupt self f Hfree) as [h Hh].
  unfold get_file_info. rewrite Hh.
  apply andb_true_iff in Hfree as [[Hstat _]%andb_true_iff _].
  destruct (os_stat f) as [st|e]; simpl.
  - destruct h; by eexists.
  - rewrite Hstat. repeat case_match; by eexists.
Qed.

Lemma scan_file_no_interrupt self baseline_filename root files_data name f :
  interrupt_free_file f = true →
  (scan_file sha256_hexdigest self baseline_filename root files_data
             (name, f)).2 = None.
Proof.
  intros [r Hr]%(get_file_info_no_interrupt self). unfold scan_file.
  destruct (_ || _); [done|]. rewrite Hr. simpl.
  destruct r as [info|]; [|done]. by destruct (str_truthy _).
Qed.


Lemma for_each_step_raises {S A} (P : exn → Prop)
    (body : S → A → result S) l s s' e :
  (∀ s a e, body s a = Raise e → P e) →
  for_each (λ s a, step s (body s a)) l s = (s', Some e) → P e.
Proof.
  intros Hbody. revert s. induction l as [|a l IH]; intros s; simpl; [done|].
  destruct (body s a) as [s1|e1] eqn:Hstep; simpl.
  - apply IH.
  - intros [= <- <-]. by eapply Hbody.
Qed.

Lemma dict_getitem_raises {V} k (d : dict V) e :
  dict_getitem k d = Raise e → is_Exception e = true.
Proof. unfold dict_getitem. destruct (dict_get k d); by intros [= <-]. Qed.

Lemma getitem_raises v k e : getitem v k = Raise e → is_Exception e = true.
Proof.
  destruct v; simpl; try by intros [= <-]. apply dict_getitem_raises.
Qed.

Lemma compare_states_raises self cur e :
  compare_states self cur = Raise e → is_Exception e = true.
Proof.
  unfold compare_states. destruct (items (baseline self)) as [bl|e0] eqn:Hit; simpl.
  - destruct (baseline_loop self cur bl no_changes) as [ch1 [e1|]] eqn:H1.
    + intros [= <-]. unfold baseline_loop in H1.
      apply (for_each_step_raises (λ e, is_Exception e = true)) in H1; [done|].
      intros ch [p info] e2. unfold check_baseline_entry.
      case_bool_decide; [done|]. destruct (dict_mem p cur); [|done].
      destruct (dict_getitem p cur) as [ci|e3] eqn:Hci; simpl;
        [|intros [= <-]; by eapply dict_getitem_raises].
      destruct (getitem info "hash") as [oh|e3] eqn:Hoh; simpl;
        [|intros [= <-]; by eapply getitem_raises].
      destruct (str_ne _ _); [|done].
      destruct (getitem info "size") as [osz|e3] eqn:Hosz; simpl;
        [done|intros [= <-]; by eapply getitem_raises].
    + destruct (current_loop bl cur (keys cur) ch1) as [ch2 [e2|]] eqn:H2;
        [|done].
      intros [= <-]. unfold current_loop in H2.
      apply (for_each_step_raises (λ e, is_Exception e = true)) in H2; [done|].
      intros ch p e3. unfold check_current_entry.
      destruct (negb _); [|done].
      destruct (dict_getitem p cur) as [ci|e4] eqn:Hci; simpl; [done|].
      intros [= <-]. by eapply dict_getitem_raises.
  - intros [= <-]. destruct (baseline self); simpl in Hit; by simplify_eq.
Qed.

(** X2.  The only thing [scan_directory] and [check_changes] ever raise
    is [KeyboardInterrupt]; and when no call on a file under the
    directory is interrupted, both return. *)
Theorem only_interrupts_escape self fs directory :
  (∀ e, scan_directory sha256_hexdigest self fs directory = Raise e →
        e = KeyboardInterrupt) ∧
  (∀ e, check_changes sha256_hexdigest self fs directory = Raise e →
        e = KeyboardInterrupt) ∧
  (interrupt_free_root fs directory = true →
   ∃ cur ch,
     scan_directory sha256_hexdigest self fs directory = Ok cur ∧
     check_changes sha256_hexdigest self fs directory = Ok ch).
Proof.
  split_and!.
  - intros e. unfold scan_directory, _validate_directory.
    destruct (fs directory) as [[f|[] entries]|]; try done.
    cbv beta iota zeta.
    match goal with
    | |- context [for_each ?b ?w []] => destruct (for_each b w []) as [d [e'|]]
    end; [|done].
    destruct e'; simpl; try done. by intros [= <-].
  - intros e. unfold check_changes.
    destruct (check_changes_attempt _ _ _ _) as [r|e']; [done|].
    destruct (is_Exception e') eqn:He'; [done|]. intros [= <-].
    by apply not_Exception.
  - unfold interrupt_free_root. intros Hfree.
    assert (∃ cur, scan_directory sha256_hexdigest self fs directory = Ok cur)
      as [cur Hscan].
    { unfold scan_directory, _validate_directory.
      destruct (fs directory) as [[f|[] entries]|]; try by eexists.
      cbv beta iota zeta.
      match goal with
      | |- context [for_each ?b ?w []] => set (body := b); set (walk := w)
      end.
      assert (Hnone : (for_each body walk []).2 = None).
      { apply for_each_no_exn. intros d [[root dirs] files] Hin. unfold body.
        apply os_walk_spec in Hin as (path & es & Hreach & _ & _ & _ & ->).
        apply for_each_no_exn. intros d' [name f] Hin%elem_of_filenames.
        apply scan_file_no_interrupt.
        pose proof (reach_interrupt_free _ _ _ Hfree Hreach) as Hes.
        by apply (proj1 (interrupt_free_Dir true es) Hes name (File f)). }
      destruct (for_each body walk []) as [d [e|]]; [done|]. by eexists. }
    exists cur. unfold check_changes, check_changes_attempt. rewrite Hscan. simpl.
    destruct (compare_states self cur) as [ch|e] eqn:Hcmp; simpl; [by eexists|].
    by rewrite (compare_states_raises _ _ _ Hcmp); eexists.
Qed.
End escapes.

(** ** What the scan keeps and what it leaves out *)





Section scan_contents.
Variable sha256_hexdigest : list byte → string.
Implicit Types (self : FileIntegrityMonitor) (fs : filesystem) (top : node).

(** X3.  A key of the mapping [scan_directory] returns never names a
    hidden file or a file called like the baseline file, and never
    passes through one of the two reserved Windows directories. *)
Theorem scan_directory_filters self fs directory files_data p :
  valid_root fs directory = true →
  scan_directory sha256_hexdigest self fs directory = Ok files_data →
  p ∈ keys files_data →
  startswith_dot (os_path_basename p) = false ∧
  os_path_basename p ≠ os_path_basename (baseline_file self) ∧
  ∀ path name,
    p = relpath_of (path ++ [name]) →
    Forall (λ n, valid_name n = true) (path ++ [name]) →
    Forall (λ d, d ≠ "$RECYCLE.BIN" ∧ d ≠ "System Volume Information") path.
Proof.
  unfold valid_root. intros Hvalid Hscan [info Hin]%dict_get_is_Some.
  apply dict_get_Some_elem in Hin.
  destruct (fs directory) as [top|] eqn:Hfs.
  2:{ rewrite scan_directory_no_directory in Hscan by (intros ?; congruence).
      simplify_eq. by apply elem_of_nil in Hin. }
  destruct (scan_directory_scanned _ _ _ _ _ _ Hfs Hscan _ _ Hin)
    as (path0 & name0 & f & Hreach & -> & Hkept & Hdot & Hbase & _).
  destruct (reach_valid _ _ _ Hvalid Hreach) as [Hnames _].
  assert (contains_slash name0 = false) as Hslash.
  { apply Forall_app in Hnames as [_ Hn]. rewrite Forall_singleton in Hn.
    by apply valid_name_spec in Hn as [_ ?]. }
  rewrite basename_relpath_of by done. split_and!; [done..|].
  intros path name Heq Hnames'. apply relpath_of_inj in Heq; [|done..].
  apply app_inj_tail in Heq as [<- _].
  eapply Forall_impl; [exact Hkept|]. intros d. unfold keep_dir.
  intros [_ Hd%negb_true_iff]%andb_true_iff.
  apply bool_decide_eq_false in Hd. set_solver.
Qed.



End scan_contents.

(** ** Records, loading and saving *)

Section records_and_files.
Variable sha256_hexdigest : list byte → string.
Implicit Types (self : FileIntegrityMonitor) (fs : filesystem)
  (disk : baseline_store).

(** X5.  [get_file_info] returns a record exactly when [os.stat], the
    size query and the read all succeed and the size is at most the
    limit (a file of exactly the limit is hashed).  The record holds the
    digest of the bytes read, and the size and the two times [os.stat]
    reported. *)
Theorem get_file_info_Some_iff self f info :
  get_file_info sha256_hexdigest self f = Ok (Some info) ↔
  ∃ st n data,
    os_stat f = Ok st ∧ os_path_getsize f = Ok n ∧
    n ≤ max_file_size self ∧ read_all f = Ok data ∧
    info = {| Info.hash := sha256_hexdigest data;
              Info.size := st_size st;
              Info.modified := st_mtime st;
              Info.created := st_ctime st |}.
Proof.
  unfold get_file_info, calculate_hash. split.
  - destruct (os_stat f) as [st|e]; simpl; [|by destruct e].
    destruct (os_path_getsize f) as [n|e]; simpl; [|by destruct e].
    case_bool_decide as Hn; simpl; [done|].
    destruct (read_all f) as [data|e]; simpl; [|by destruct e].
    intros [= <-]. exists st, n, data. split_and!; try done; lia.
  - intros (st & n & data & -> & -> & Hn & -> & ->). simpl.
    rewrite bool_decide_false by lia. done.
Qed.

(** X6.  [load_baseline] never raises.  It returns [True] exactly when
    the baseline file exists, can be read, parses, and passes the
    structure checks, and then [self.baseline] is the parsed document.
    When the file is missing, unreadable or not JSON, it returns [False]
    and leaves the monitor as it was. *)
Theorem load_baseline_outcomes self disk :
  (∃ b msg self', load_baseline self disk = (Ok (b, msg), self')) ∧
  (∀ self',
     load_baseline self disk = (Ok (true, None), self') ↔
     ∃ doc, stored disk = Some (JsonText doc) ∧ may_read disk = true ∧
            validate_baseline (json_load doc) = Ok () ∧
            self' = set_baseline self (json_load doc)) ∧
  (stored disk = None ∨ may_read disk = false ∨
   (∃ text, stored disk = Some (NotJson text)) →
   ∃ msg, load_baseline self disk = (Ok (false, Some msg), self)).
Proof.
  unfold load_baseline, os_path_exists, os_access_R_OK, read_json.
  destruct (stored disk) as [[text|doc]|] eqn:Hstored.
  - rewrite bool_decide_true by eauto. simpl.
    destruct (may_read disk); simpl.
    + split_and!; [by eexists _, _, _| |by eexists].
      intros self'. split; [done|]. by intros (doc & [=] & _).
    + split_and!; [by eexists _, _, _| |by eexists].
      intros self'. split; [done|]. by intros (doc & [=] & _).
  - rewrite bool_decide_true by eauto. simpl.
    destruct (may_read disk); simpl.
    + destruct (validate_baseline (json_load doc)) as [[]|e] eqn:Hv.
      * split_and!; [by eexists _, _, _| |].
        -- intros self'. split.
           ++ intros [= <-]. by exists doc.
           ++ intros (doc' & [= <-] & _ & _ & ->). done.
        -- intros [|[|[text [=]]]]; done.
      * assert (∃ msg, load_failed e = Ok (false, Some msg)) as [msg Hmsg].
        { destruct (json_load doc) as [| | | | |d]; simpl in Hv; simplify_eq;
            try by eexists.
          clear Hstored. induction d as [|[p info] d IH]; [done|].
          change (validate_entries ((p, info) :: d))
            with (validate_entry (p, info) ≫= λ _, validate_entries d) in Hv.
          destruct (validate_entry (p, info)) as [[]|e'] eqn:Hentry;
            simpl in Hv; [by apply IH|]. simplify_eq.
          destruct info; simpl in Hentry; simplify_eq; try by eexists.
          repeat case_match; simplify_eq; by eexists. }
        rewrite Hmsg. split_and!; [by eexists _, _, _| |].
        -- intros self'. split; [done|].
           intros (doc' & [= <-] & _ & Hv' & _). congruence.
        -- intros [|[|[text [=]]]]; done.
    + split_and!; [by eexists _, _, _| |by eexists].
      intros self'. split; [done|]. by intros (doc' & _ & [=] & _).
  - rewrite bool_decide_false by (by intros [? [=]]). simpl.
    split_and!; [by eexists _, _, _| |by eexists].
    intros self'. split; [done|]. by intros (doc & [=] & _).
Qed.

(** X7.  What [create_baseline] does once the scan has returned a
    non-empty mapping.  If the baseline file cannot be written, it
    returns [False] and the file is as it was.  If it can be written but
    not read back, the file is replaced all the same and [False] is
    returned.  Otherwise the file holds the mapping and [True] is
    returned: the count check after the write cannot fail.  In each case
    [self.baseline] is the mapping. *)
Theorem create_baseline_outcomes self fs directory disk (B : dict Info.t) :
  scan_directory sha256_hexdigest self fs directory = Ok B →
  B ≠ [] →
  create_baseline sha256_hexdigest self fs directory disk
  = if may_write disk
    then (may_read disk, set_baseline self (baseline_of_scan B),
          {| stored := Some (JsonText (baseline_of_scan B));
             may_read := may_read disk; may_write := may_write disk |})
    else (false, set_baseline self (baseline_of_scan B), disk).
Proof.
  intros Hscan Hne. pose proof (scan_directory_NoDup _ _ _ _ _ Hscan) as Hnd.
  assert (Htruthy : truthy (baseline_of_scan B) = true).
  { by destruct B. }
  unfold create_baseline. rewrite Hscan. cbn [baseline set_baseline].
  rewrite Htruthy. cbn [negb].
  unfold save_baseline, write_json. cbn [baseline set_baseline].
  destruct (may_write disk) eqn:Hw; [|done].
  unfold read_json. cbn [stored may_read json_dump].
  destruct (may_read disk) eqn:Hr; [|done]. unfold json_dump.
  rewrite json_load_baseline_of_scan by done. simpl.
  by rewrite bool_decide_false by (by intros []).
Qed.

(** X8.  A baseline created and then checked.  After [create_baseline]
    has succeeded, [monitor_once], run by a monitor with the same
    settings on the file just written, loads that baseline and reports
    the changeset of [check_changes] against it; when the new scan
    gives the mapping that was saved, the changeset is empty. *)
Theorem create_then_monitor_once self fs fs' directory disk
    (B cur : dict Info.t) :
  scan_directory sha256_hexdigest self fs directory = Ok B →
  B ≠ [] →
  may_write disk = true →
  may_read disk = true →
  scan_directory sha256_hexdigest self fs' directory = Ok cur →
  ∃ disk' ch,
    create_baseline sha256_hexdigest self fs directory disk
    = (true, set_baseline self (baseline_of_scan B), disk') ∧
    check_changes sha256_hexdigest (set_baseline self (baseline_of_scan B))
                  fs' directory = Ok (ch, cur) ∧
    (∀ b, monitor_once sha256_hexdigest (set_baseline self b) fs' directory
                       disk'
          = (Ok (Some ch), set_baseline self (baseline_of_scan B))) ∧
    (cur = B → ch = no_changes).
Proof.
  intros Hscan Hne Hw Hr Hcur.
  pose proof (scan_directory_NoDup _ _ _ _ _ Hscan) as Hnd.
  set (self1 := set_baseline self (baseline_of_scan B)).
  destruct (compare_states_spec self1 cur (prod_map id Info.to_json <$> B))
    as (ch & Hcmp & _); [done|apply (baseline_of_scan_valid B)|].
  pose proof (check_changes_Ok _ self1 fs' directory cur ch Hcur Hcmp) as Hcheck.
  exists {| stored := Some (JsonText (baseline_of_scan B));
            may_read := may_read disk; may_write := may_write disk |}, ch.
  split_and!; [|done| |].
  - unfold create_baseline. rewrite Hscan. cbn [baseline set_baseline].
    replace (truthy (baseline_of_scan B)) with true by (by destruct B).
    cbn [negb]. unfold save_baseline, write_json.
    cbn [baseline set_baseline]. rewrite Hw.
    unfold read_json. cbn [stored may_read json_dump]. rewrite Hr.
    unfold json_dump.
    rewrite json_load_baseline_of_scan by done. simpl.
    by rewrite bool_decide_false by (by intros []).
  - intros b.
    unfold monitor_once, load_baseline, os_path_exists, os_access_R_OK,
      read_json. cbn [stored may_read]. rewrite Hr.
    rewrite bool_decide_true by eauto. cbn [negb andb].
    rewrite json_load_baseline_of_scan by done.
    cbn [baseline set_baseline]. rewrite baseline_of_scan_valid.
    change (set_baseline (set_baseline self b) (baseline_of_scan B))
      with self1.
    by rewrite Hcheck.
  - intros ->. unfold self1 in Hcmp.
    rewrite compare_states_own_scan in Hcmp by done. congruence.
Qed.

End records_and_files.

(** ** The order of the three lists *)

Section order.
Variable sha256_hexdigest : list byte → string.
Implicit Types (self : FileIntegrityMonitor) (fs : filesystem)
  (cur : dict Info.t) (bl : dict json) (ch : Changes) (p : string).

Lemma check_baseline_entry_order self cur ch p info ch1 :
  check_baseline_entry self cur ch (p, info) = Ok ch1 →
  added ch1 = added ch ∧
  deleted ch1
  = deleted ch ++
    filter (λ p, (os_path_basename p ∉ ignore_files self) ∧ (p ∉ keys cur)) [p] ∧
  ∃ l, Modified.file <$> modified ch1 = (Modified.file <$> modified ch) ++ l ∧
       l `sublist_of`
         filter (λ p, (os_path_basename p ∉ ignore_files self) ∧ p ∈ keys cur)
                [p].
Proof.
  unfold check_baseline_entry. case_bool_decide as Hign.
  { intros [= <-]. rewrite !filter_cons_False, filter_nil by tauto.
    rewrite app_nil_r. split_and!; try done. exists []. by rewrite app_nil_r. }
  destruct (dict_mem p cur) eqn:Hcur.
  - apply dict_mem_true in Hcur.
    rewrite (filter_cons_False _ p) by tauto.
    rewrite (filter_cons_True _ p) by tauto. rewrite !filter_nil, app_nil_r.
    destruct (dict_getitem p cur) as [ci|]; simpl; [|done].
    destruct (getitem info "hash") as [oh|]; simpl; [|done].
    destruct (str_ne _ _).
    + destruct (getitem info "size") as [osz|]; simpl; [|done].
      intros [= <-]; simpl. split_and!; try done. exists [p].
      by rewrite fmap_app.
    + intros [= <-]. split_and!; try done. exists [].
      rewrite app_nil_r. split; [done|apply sublist_nil_l].
  - apply dict_mem_false in Hcur. intros [= <-]; simpl.
    rewrite (filter_cons_True _ p) by tauto.
    rewrite (filter_cons_False _ p) by tauto. rewrite !filter_nil.
    split_and!; try done. exists []. by rewrite app_nil_r.
Qed.

Lemma baseline_loop_order self cur bl ch ch' :
  baseline_loop self cur bl ch = (ch', None) →
  added ch' = added ch ∧
  deleted ch'
  = deleted ch ++
    filter (λ p, (os_path_basename p ∉ ignore_files self) ∧ (p ∉ keys cur))
           (keys bl) ∧
  ∃ l, Modified.file <$> modified ch' = (Modified.file <$> modified ch) ++ l ∧
       l `sublist_of`
         filter (λ p, (os_path_basename p ∉ ignore_files self) ∧ p ∈ keys cur)
                (keys bl).
Proof.
  unfold baseline_loop. revert ch.
  induction bl as [|it bl IH]; intros ch; simpl.
  - intros [= <-]. unfold keys. csimpl. rewrite !filter_nil, app_nil_r.
    split_and!; try done. exists []. by rewrite app_nil_r.
  - destruct (check_baseline_entry self cur ch it) as [ch1|] eqn:Hstep;
      simpl; [|done].
    intros (Ha & Hd & l2 & Hm & Hl2)%IH. destruct it as [p info].
    apply check_baseline_entry_order in Hstep as (Ha1 & Hd1 & l1 & Hm1 & Hl1).
    unfold keys in *. csimpl.
    change (p :: bl.*1) with ([p] ++ bl.*1). rewrite !filter_app.
    split_and!; [congruence|by rewrite Hd, Hd1, app_assoc|].
    exists (l1 ++ l2). split; [by rewrite Hm, Hm1, app_assoc|].
    by apply sublist_app.
Qed.

Lemma current_loop_order bl cur ks ch :
  ks ⊆ keys cur →
  ∃ ch', current_loop bl cur ks ch = (ch', None) ∧
    modified ch' = modified ch ∧ deleted ch' = deleted ch ∧
    Added.file <$> added ch'
    = (Added.file <$> added ch) ++ filter (λ p, p ∉ keys bl) ks.
Proof.
  unfold current_loop. revert ch.
  induction ks as [|p ks IH]; intros ch Hks.
  - exists ch. by rewrite filter_nil, app_nil_r.
  - assert (p ∈ keys cur) as [ci Hci]%dict_get_is_Some by set_solver.
    cbn [for_each]. unfold check_current_entry at 1.
    destruct (dict_mem p bl) eqn:Hbl; simpl.
    + apply dict_mem_true in Hbl.
      destruct (IH ch) as (ch' & Hch' & Hm & Hd & Ha); [set_solver|].
      exists ch'. rewrite filter_cons_False by tauto. done.
    + apply dict_mem_false in Hbl. unfold dict_getitem. rewrite Hci. simpl.
      match goal with
      | |- context [for_each _ ks ?c] =>
          destruct (IH c) as (ch' & Hch' & Hm & Hd & Ha); [set_solver|]
      end.
      exists ch'. rewrite filter_cons_True by done.
      split_and!; try done. rewrite Ha. simpl.
      by rewrite fmap_app, <-app_assoc.
Qed.

Lemma compare_states_order self cur bl :
  baseline self = JObj bl →
  validate_entries bl = Ok () →
  ∃ ch,
    compare_states self cur = Ok ch ∧
    deleted ch
    = filter (λ p, (os_path_basename p ∉ ignore_files self) ∧ (p ∉ keys cur))
             (keys bl) ∧
    Added.file <$> added ch = filter (λ p, p ∉ keys bl) (keys cur) ∧
    (Modified.file <$> modified ch)
      `sublist_of`
      filter (λ p, (os_path_basename p ∉ ignore_files self) ∧ p ∈ keys cur)
             (keys bl).
Proof.
  intros Hb Hbl.
  destruct (baseline_loop_valid self cur bl no_changes Hbl) as [ch1 Hch1].
  destruct (current_loop_order bl cur (keys cur) ch1) as (ch & Hch & Hm & Hd & Ha);
    [done|].
  exists ch. split.
  { unfold compare_states. rewrite Hb. simpl. by rewrite Hch1, Hch. }
  apply baseline_loop_order in Hch1 as (Ha1 & Hd1 & l & Hm1 & Hl).
  simpl in *. rewrite Ha1 in Ha. simpl in Ha. rewrite <-Hm in Hm1.
  rewrite <-Hd in Hd1. split_and!; [done|done|by rewrite Hm1].
Qed.

(** X9.  For a baseline that passes the checks of [load_baseline], the
    lists of the changeset come in the order of the mappings they are
    read from.  The deleted list is the baseline's keys, in their order,
    that are not ignored and not in the scan; the added entries are the
    scan's keys, in their order, that are not in the baseline; the
    modified entries follow the baseline's order.  No path is reported
    twice, in one list or across them, when the baseline has each key
    once. *)
Theorem changes_in_order self fs directory cur bl :
  scan_directory sha256_hexdigest self fs directory = Ok cur →
  baseline self = JObj bl →
  validate_baseline (baseline self) = Ok () →
  ∃ ch,
    check_changes sha256_hexdigest self fs directory = Ok (ch, cur) ∧
    deleted ch
    = filter (λ p, (os_path_basename p ∉ ignore_files self) ∧ (p ∉ keys cur))
             (keys bl) ∧
    Added.file <$> added ch = filter (λ p, p ∉ keys bl) (keys cur) ∧
    (Modified.file <$> modified ch)
      `sublist_of`
      filter (λ p, (os_path_basename p ∉ ignore_files self) ∧ p ∈ keys cur)
             (keys bl) ∧
    (NoDup (keys bl) →
     NoDup ((Modified.file <$> modified ch) ++ (Added.file <$> added ch)
            ++ deleted ch)).
Proof.
  intros Hscan Hb Hvalid.
  pose proof (validate_baseline_JObj _ _ Hb Hvalid) as Hbl.
  pose proof (scan_directory_NoDup _ _ _ _ _ Hscan) as Hndcur.
  destruct (compare_states_order self cur bl Hb Hbl)
    as (ch & Hcmp & Hd1 & Ha & Hl).
  exists ch. split; [by apply check_changes_Ok|].
  split_and!; [done|done|done| ].
  intros Hnd. rewrite Ha, Hd1.
  apply NoDup_app. split_and!.
  - eapply sublist_NoDup; [|exact Hl]. by apply NoDup_filter.
  - intros p Hp. eapply elem_of_sublist in Hp; [|exact Hl].
    apply list_elem_of_filter in Hp as [[_ Hpc] Hpb].
    rewrite elem_of_app, !list_elem_of_filter. tauto.
  - apply NoDup_app. split_and!; [by apply NoDup_filter| |by apply NoDup_filter].
    intros p [Hnb _]%list_elem_of_filter [_ ?]%list_elem_of_filter. done.
Qed.

End order.

(** ** Alerts and the monitoring loop *)

Lemma alert_modified_loop_ok (l : list Modified.t) (log : list string) :
  Forall (λ item, slice16 (Modified.old_hash item) = Ok ()) l →
  for_each (λ log item,
              step log (slice16 (Modified.old_hash item) ≫= λ _,
                        mret (log ++ ["Modified: " +:+ Modified.file item])))
           l log
  = (log ++ ((λ item, "Modified: " +:+ Modified.file item) <$> l), None).
Proof.
  revert log. induction l as [|item l IH]; intros log Hall; simpl.
  - by rewrite app_nil_r.
  - apply Forall_cons in Hall as [Hitem Hall]. rewrite Hitem. simpl.
    rewrite IH by done. by rewrite <-app_assoc.
Qed.

Lemma slice16_raises (v : json) :
  slice16 v ≠ Ok () → ∃ e, slice16 v = Raise e ∧ is_Exception e = true.
Proof. destruct v as [| |[]| | |]; simpl; try done; by eexists. Qed.

Lemma alert_modified_loop_raises (l : list Modified.t) (log : list string) :
  Exists (λ item, slice16 (Modified.old_hash item) ≠ Ok ()) l →
  ∃ log' e,
    for_each (λ log item,
                step log (slice16 (Modified.old_hash item) ≫= λ _,
                          mret (log ++ ["Modified: " +:+ Modified.file item])))
             l log
    = (log', Some e) ∧ is_Exception e = true.
Proof.
  revert log. induction l as [|item l IH]; intros log Hex.
  { by apply Exists_nil in Hex. }
  simpl. destruct (slice16 (Modified.old_hash item)) as [[]|e] eqn:Hitem; simpl.
  - apply Exists_cons in Hex as [?|Hex]; [done|]. by apply IH.
  - exists log, e. split; [done|].
    destruct (slice16_raises (Modified.old_hash item)) as (e' & He' & Hexn);
      [by rewrite Hitem|]. congruence.
Qed.

Lemma no_changes_iff (ch : Changes) :
  (length (modified ch) + length (added ch) + length (deleted ch))%nat = 0%nat
  ↔ ch = no_changes.
Proof.
  destruct ch as [[|??] [|??] [|??]]; simpl; split; intros; simplify_eq; done.
Qed.

Lemma generate_alert_True (ch : Changes) :
  ch ≠ no_changes →
  Forall (λ item, slice16 (Modified.old_hash item) = Ok ()) (modified ch) →
  generate_alert ch
  = (["INTEGRITY VIOLATION - "
      +:+ pretty (length (modified ch) + length (added ch)
                  + length (deleted ch))%nat
      +:+ " change(s) detected"]
     ++ ((λ item, "Modified: " +:+ Modified.file item) <$> modified ch)
     ++ ((λ item, "Added: " +:+ Added.file item) <$> added ch)
     ++ ((λ filepath, "Deleted: " +:+ filepath) <$> deleted ch),
     Ok true).
Proof.
  intros Hne Hall. unfold generate_alert. rewrite <-no_changes_iff in Hne.
  rewrite bool_decide_false by done.
  rewrite alert_modified_loop_ok by done. by rewrite <-!app_assoc.
Qed.

Lemma generate_alert_raises (ch : Changes) :
  Exists (λ item, slice16 (Modified.old_hash item) ≠ Ok ()) (modified ch) →
  ∃ log e, generate_alert ch = (log, Raise e) ∧ is_Exception e = true.
Proof.
  intros Hex. unfold generate_alert. assert (modified ch ≠ []) as Hm.
  { intros Hnil. rewrite Hnil in Hex. by apply Exists_nil in Hex. }
  rewrite bool_decide_false by (destruct (modified ch); simpl; [done|lia]).
  destruct (alert_modified_loop_raises (modified ch)
    ["INTEGRITY VIOLATION - "
     +:+ pretty (length (modified ch) + length (added ch)
                 + length (deleted ch))%nat
     +:+ " change(s) detected"] Hex) as (log' & e & -> & He).
  by exists log', e.
Qed.

Lemma generate_alert_False (ch : Changes) :
  (generate_alert ch).2 = Ok false ↔ ch = no_changes.
Proof.
  unfold generate_alert. case_bool_decide as Htotal.
  - apply no_changes_iff in Htotal. by split.
  - rewrite no_changes_iff in Htotal.
    destruct (for_each _ (modified ch) _) as [log [e|]]; simpl;
      split; try done.
Qed.

(** X10.  [generate_alert] returns [False], logging nothing, exactly for
    the empty changeset.  For any other changeset in which every old
    hash can be sliced it returns [True] after one warning for the whole
    and one per entry, modified first, then added, then deleted.  If the
    old hash of some modified entry cannot be sliced (the baseline held
    a number there, say), it raises an [Exception] instead. *)
Theorem generate_alert_outcomes (ch : Changes) :
  ((generate_alert ch).2 = Ok false ↔ ch = no_changes) ∧
  (ch = no_changes → generate_alert ch = ([], Ok false)) ∧
  (ch ≠ no_changes →
   Forall (λ item, slice16 (Modified.old_hash item) = Ok ()) (modified ch) →
   generate_alert ch
   = (["INTEGRITY VIOLATION - "
       +:+ pretty (length (modified ch) + length (added ch)
                   + length (deleted ch))%nat
       +:+ " change(s) detected"]
      ++ ((λ item, "Modified: " +:+ Modified.file item) <$> modified ch)
      ++ ((λ item, "Added: " +:+ Added.file item) <$> added ch)
      ++ ((λ filepath, "Deleted: " +:+ filepath) <$> deleted ch),
      Ok true)) ∧
  (Exists (λ item, slice16 (Modified.old_hash item) ≠ Ok ()) (modified ch) →
   ∃ log e, generate_alert ch = (log, Raise e) ∧ is_Exception e = true).
Proof.
  split_and!.
  - apply generate_alert_False.
  - by intros ->.
  - apply generate_alert_True.
  - apply generate_alert_raises.
Qed.

Section monitor_loop_facts.
Variable sha256_hexdigest : list byte → string.
Implicit Types (self : FileIntegrityMonitor) (fs : filesystem)
  (now : Monitoring).

(** X11.  Without [update_baseline], [monitor_realtime] changes neither
    the baseline in memory, once loaded, nor the baseline file, however
    many cycles it runs and whatever they find. *)
Theorem monitoring_without_update self directory interval disk snapshots :
  let after :=
    (monitor_realtime sha256_hexdigest self directory interval false disk
                      snapshots).1 in
  baseline (monitor after) = baseline (load_baseline self disk).2 ∧
  baseline_disk after = disk.
Proof.
  unfold monitor_realtime.
  destruct (load_baseline self disk) as [[[[] msg]|e] self'] eqn:Hload;
    simpl; try done.
  apply (for_each_invariant
           (λ now, baseline (monitor now) = baseline self'
                   ∧ baseline_disk now = disk)); [done|].
  intros now fs _ [Hm Hd]. unfold monitor_cycle.
  destruct (check_changes _ _ _ _) as [[changes cur]|e]; simpl.
  - destruct (generate_alert changes) as [log [[]|e]]; simpl;
      [done|done|by repeat case_match].
  - by repeat case_match.
Qed.

Lemma check_changes_genuine self fs directory ch cur :
  check_changes sha256_hexdigest self fs directory = Ok (ch, cur) →
  ch ≠ no_changes →
  scan_directory sha256_hexdigest self fs directory = Ok cur.
Proof.
  unfold check_changes, check_changes_attempt.
  destruct (scan_directory _ _ _ _) as [cur'|e]; simpl.
  - destruct (compare_states self cur') as [ch'|e]; simpl.
    + by intros [= <- <-].
    + destruct (is_Exception e); [|done]. by intros [= <- <-].
  - destruct (is_Exception e); [|done]. by intros [= <- <-].
Qed.

(** X12.  With [update_baseline], a cycle that went through leaves the
    loop at rest: a second cycle over the same state of the directory
    raises no alert and changes nothing. *)
Theorem monitor_cycle_settles directory now fs now' :
  monitor_cycle sha256_hexdigest directory true now fs = (now', None) →
  monitor_cycle sha256_hexdigest directory true now' fs = (now', None).
Proof.
  unfold monitor_cycle at 1.
  destruct (check_changes _ (monitor now) fs directory)
    as [[changes cur]|e] eqn:Hcheck; simpl.
  2:{ destruct (is_KeyboardInterrupt e) eqn:Hki; [done|].
      destruct (is_Exception e) eqn:He; [|done]. intros [= <-].
      unfold monitor_cycle. rewrite Hcheck. simpl. by rewrite Hki, He. }
  destruct (generate_alert changes) as [log [[]|e]] eqn:Halert; simpl.
  - assert (Hne : changes ≠ no_changes).
    { intros ->. done. }
    pose proof (check_changes_genuine _ _ _ _ _ Hcheck Hne) as Hscan.
    assert (Hown : check_changes sha256_hexdigest
                     (set_baseline (monitor now) (baseline_of_scan cur))
                     fs directory = Ok (no_changes, cur)).
    { apply check_changes_Ok; [done|]. apply compare_states_own_scan.
      by eapply scan_directory_NoDup. }
    assert (Hquiet : ∀ disk alerted,
      monitor_cycle sha256_hexdigest directory true
        {| monitor := set_baseline (monitor now) (baseline_of_scan cur);
           baseline_disk := disk; alerts := alerted |} fs
      = ({| monitor := set_baseline (monitor now) (baseline_of_scan cur);
            baseline_disk := disk; alerts := alerted |}, None)).
    { intros disk alerted. unfold monitor_cycle. cbn [monitor].
      by rewrite Hown. }
    destruct (write_json (baseline_disk now) _) as [disk|e].
    + intros [= <-]. apply Hquiet.
    + destruct (is_Exception e) eqn:He; simpl.
      * intros [= <-]. apply Hquiet.
      * apply not_Exception in He as ->. done.
  - intros [= <-]. unfold monitor_cycle. rewrite Hcheck. simpl.
    by rewrite Halert.
  - destruct (is_KeyboardInterrupt e) eqn:Hki; [done|].
    destruct (is_Exception e) eqn:He; [|done]. intros [= <-].
    unfold monitor_cycle. rewrite Hcheck. simpl. rewrite Halert. simpl.
    by rewrite Hki, He.
Qed.

Lemma baseline_loop_empty_scan self bl ch :
  ∃ ch', baseline_loop self [] bl ch = (ch', None).
Proof.
  unfold baseline_loop. revert ch.
  induction bl as [|[p info] bl IH]; intros ch; simpl; [by eexists|].
  case_bool_decide; simpl; apply IH.
Qed.

(** X13.  With [update_baseline], a cycle that finds the directory
    missing, not a directory or unreadable reports every baseline path
    that is not ignored as deleted, and then replaces the baseline by
    the empty mapping, in memory and, if the file can be written, on
    disk. *)
Theorem monitor_cycle_directory_gone directory now fs bl :
  (∀ entries, fs directory ≠ Some (Dir true entries)) →
  baseline (monitor now) = JObj bl →
  (∃ p, p ∈ keys bl ∧ os_path_basename p ∉ ignore_files (monitor now)) →
  may_write (baseline_disk now) = true →
  ∃ now',
    monitor_cycle sha256_hexdigest directory true now fs = (now', None) ∧
    baseline (monitor now') = JObj [] ∧
    stored (baseline_disk now') = Some (JsonText (JObj [])) ∧
    alerts now'
    = alerts now ++
      [ {| modified := []; added := [];
           deleted := filter (λ p, os_path_basename p
                                   ∉ ignore_files (monitor now))
                             (keys bl) |} ].
Proof.
  intros Hgone Hb (p & Hp & Hign) Hw.
  pose proof (scan_directory_no_directory sha256_hexdigest (monitor now)
                fs directory Hgone) as Hscan.
  destruct (baseline_loop_empty_scan (monitor now) bl no_changes) as [ch Hch].
  pose proof (baseline_loop_order _ _ _ _ _ Hch) as (Ha & Hd & l & Hm & Hl).
  simpl in Ha, Hd, Hm.
  assert (Hfilter :
    filter (λ p, (os_path_basename p ∉ ignore_files (monitor now))
                 ∧ (p ∉ keys ([] : dict Info.t))) (keys bl)
    = filter (λ p, os_path_basename p ∉ ignore_files (monitor now)) (keys bl)).
  { apply list_filter_iff. intros q. split; [tauto|].
    intros ?. split; [done|]. apply not_elem_of_nil. }
  assert (ch = {| modified := []; added := [];
                  deleted := filter (λ p, os_path_basename p
                                          ∉ ignore_files (monitor now))
                                    (keys bl) |}) as Hchanges.
  { destruct ch as [ms adds dels]; simpl in *. f_equal; [|done|congruence].
    assert (l = []) as ->.
    { apply sublist_nil_r.
      rewrite (nil_if_no_elem (filter _ (keys bl))) in Hl; [done|].
      intros q [[_ []%elem_of_nil] _]%list_elem_of_filter. }
    by destruct ms. }
  assert (Hcheck : check_changes sha256_hexdigest (monitor now) fs directory
                   = Ok (ch, [])).
  { apply check_changes_Ok; [done|]. unfold compare_states. rewrite Hb. simpl.
    by rewrite Hch. }
  assert (Hne : ch ≠ no_changes).
  { rewrite Hchanges. intros [= Hnil].
    assert (p ∈ filter (λ p, os_path_basename p ∉ ignore_files (monitor now))
                       (keys bl)) as Hin by by apply list_elem_of_filter.
    rewrite Hnil in Hin. by apply elem_of_nil in Hin. }
  pose proof (generate_alert_True ch Hne) as Halert.
  rewrite Hchanges in Halert at 1. simpl in Halert.
  specialize (Halert (Forall_nil_2 _)).
  eexists. unfold monitor_cycle. rewrite Hcheck. cbn beta iota zeta.
  rewrite Halert. cbn [write_json baseline set_baseline baseline_of_scan
    fmap list_fmap]. unfold write_json. rewrite Hw.
  split_and!; [reflexivity|done|done|]. simpl. by rewrite Hchanges.
Qed.

(** X15.  The structure checks of [load_baseline] do not look at the
    type of a hash.  If the baseline holds, for a path that is not
    ignored and is in the scan, a hash that cannot be sliced, then the
    comparison lists the path as modified, [generate_alert] raises on
    it, and the cycle of [monitor_realtime] ends with the error logged:
    no alert is completed and, whatever [update_baseline] says, nothing
    is updated. *)
Theorem unsliceable_hash_blocks_cycle directory update_baseline now fs
    bl cur p info h :
  scan_directory sha256_hexdigest (monitor now) fs directory = Ok cur →
  baseline (monitor now) = JObj bl →
  validate_baseline (baseline (monitor now)) = Ok () →
  (p, info) ∈ bl →
  getitem info "hash" = Ok h →
  slice16 h ≠ Ok () →
  p ∈ keys cur →
  os_path_basename p ∉ ignore_files (monitor now) →
  ∃ ch log e,
    check_changes sha256_hexdigest (monitor now) fs directory = Ok (ch, cur) ∧
    in_modified ch p ∧
    generate_alert ch = (log, Raise e) ∧
    monitor_cycle sha256_hexdigest directory update_baseline now fs
    = (now, None).
Proof.
  intros Hscan Hb Hvalid Hin Hh Hslice [ci Hci]%dict_get_is_Some Hign.
  pose proof (validate_baseline_JObj _ _ Hb Hvalid) as Hbl.
  destruct (compare_states_spec (monitor now) cur bl Hb Hbl)
    as (ch & Hcmp & Hm & _).
  pose proof (check_changes_Ok _ _ fs directory cur ch Hscan Hcmp) as Hcheck.
  destruct (valid_getitem bl p info "size" Hbl Hin) as [osz Hosz];
    [set_solver|].
  set (e := {| Modified.file := p; Modified.old_hash := h;
               Modified.new_hash := Info.hash ci; Modified.old_size := osz;
               Modified.new_size := Info.size ci |}).
  assert (He : e ∈ modified ch).
  { apply Hm. exists info, ci. split_and!; try done.
    destruct h; simpl in *; done. }
  destruct (generate_alert_raises ch) as (log & err & Hlog & Herr).
  { apply Exists_exists. by exists e. }
  exists ch, log, err. split_and!; [done| |done|].
  - apply list_elem_of_fmap. by exists e.
  - unfold monitor_cycle. rewrite Hcheck. cbn beta iota zeta.
    rewrite Hlog. destruct err; done.
Qed.

(** X14.  Once the baseline is loaded, the interval [monitor_realtime]
    sleeps for lies between one second and one hour, and is the
    argument itself when that lies in this range. *)
Theorem monitor_realtime_interval self directory interval update_baseline
    disk snapshots :
  (load_baseline self disk).1 = Ok (true, None) →
  let used :=
    (monitor_realtime sha256_hexdigest self directory interval
                      update_baseline disk snapshots).2 in
  1 ≤ used ≤ 3600 ∧ (1 ≤ interval ≤ 3600 → used = interval).
Proof.
  unfold monitor_realtime.
  destruct (load_baseline self disk) as [r self']. simpl. intros ->. simpl.
  unfold checked_interval. repeat case_bool_decide; lia.
Qed.

End monitor_loop_facts.

(** ** Baselines whose hashes are strings *)

Lemma report_loop_ok (l : list Modified.t) :
  Forall (λ item, slice16 (Modified.old_hash item) = Ok ()) l →
  for_each (λ _ item, step () (slice16 (Modified.old_hash item))) l ()
  = ((), None).
Proof.
  induction 1 as [|item l Hitem _ IH]; simpl; [done|]. by rewrite Hitem.
Qed.

Lemma baseline_of_scan_sliceable (B : dict Info.t) :
  sliceable_hashes (baseline_of_scan B).
Proof.
  intros bl p info h [= <-] Hin Hh.
  apply elem_of_baseline_of_scan in Hin as (ci & _ & ->).
  unfold getitem, dict_getitem in Hh. simpl in Hh. by simplify_eq.
Qed.

Section sliceable.
Variable sha256_hexdigest : list byte → string.
Implicit Types (self : FileIntegrityMonitor) (fs : filesystem)
  (cur : dict Info.t) (bl : dict json) (ch : Changes).

Lemma baseline_loop_sliceable self cur bl bl' ch :
  sliceable_hashes (JObj bl) →
  bl' ⊆ bl →
  Forall (λ item, slice16 (Modified.old_hash item) = Ok ()) (modified ch) →
  Forall (λ item, slice16 (Modified.old_hash item) = Ok ())
         (modified (baseline_loop self cur bl' ch).1).
Proof.
  intros Hs Hsub Hch. unfold baseline_loop.
  apply (for_each_invariant
    (λ ch, Forall (λ item, slice16 (Modified.old_hash item) = Ok ())
                  (modified ch))); [done|].
  intros ch0 [p info] Hin Hch0. unfold check_baseline_entry.
  case_bool_decide; simpl; [done|].
  destruct (dict_mem p cur); simpl; [|done].
  destruct (dict_getitem p cur) as [ci|]; simpl; [|done].
  destruct (getitem info "hash") as [oh|] eqn:Hoh; simpl; [|done].
  destruct (str_ne _ _); simpl; [|done].
  destruct (getitem info "size") as [osz|]; simpl; [|done].
  apply Forall_app. split; [done|]. apply Forall_singleton. simpl.
  eapply Hs; [done| |done]. by apply Hsub.
Qed.

Lemma current_loop_modified bl cur l ch :
  modified (current_loop bl cur l ch).1 = modified ch.
Proof.
  unfold current_loop.
  apply (for_each_invariant (λ ch', modified ch' = modified ch)); [done|].
  intros ch0 p _ Hch0. unfold check_current_entry.
  destruct (negb _); simpl; [|done].
  by destruct (dict_getitem p cur).
Qed.

Lemma compare_states_sliceable self cur ch :
  sliceable_hashes (baseline self) →
  compare_states self cur = Ok ch →
  Forall (λ item, slice16 (Modified.old_hash item) = Ok ()) (modified ch).
Proof.
  intros Hs. unfold compare_states.
  destruct (baseline self) as [| | | | |bl] eqn:Hb; simpl; try done.
  pose proof (baseline_loop_sliceable self cur bl bl no_changes Hs
                (reflexivity _) (Forall_nil_2 _)) as Hloop.
  destruct (baseline_loop self cur bl no_changes) as [ch1 [e|]]; [done|].
  pose proof (current_loop_modified bl cur (keys cur) ch1) as Hcur.
  destruct (current_loop bl cur (keys cur) ch1) as [ch2 [e|]]; [done|].
  intros [= <-]. simpl in *. by rewrite Hcur.
Qed.

(** X16.  When every hash of the baseline is a string, as in every
    baseline the program wrote itself, whatever [check_changes] returns
    can be shown: [generate_alert] and [report_changes] return and do
    not raise, and the cycle of [monitor_realtime] records an alert for
    every changeset that is not empty. *)
Theorem string_hashes_always_alert directory now fs ch cur :
  sliceable_hashes (baseline (monitor now)) →
  check_changes sha256_hexdigest (monitor now) fs directory = Ok (ch, cur) →
  (∃ alerted, (generate_alert ch).2 = Ok alerted) ∧
  (report_changes ch).2 = Ok () ∧
  (ch ≠ no_changes →
   (generate_alert ch).2 = Ok true ∧
   monitor_cycle sha256_hexdigest directory false now fs
   = ({| monitor := monitor now; baseline_disk := baseline_disk now;
         alerts := alerts now ++ [ch] |}, None)).
Proof.
  intros Hs Hcheck.
  assert (Hall : Forall (λ item, slice16 (Modified.old_hash item) = Ok ())
                        (modified ch)).
  { revert Hcheck. unfold check_changes, check_changes_attempt.
    destruct (scan_directory _ _ _ _) as [cur'|e]; simpl.
    - destruct (compare_states (monitor now) cur') as [ch'|e] eqn:Hcmp; simpl.
      + intros [= <- <-]. by eapply compare_states_sliceable.
      + destruct (is_Exception e); [|done]. by intros [= <- <-].
    - destruct (is_Exception e); [|done]. by intros [= <- <-]. }
  assert (Hreport : (report_changes ch).2 = Ok ()).
  { unfold report_changes. case_bool_decide; [done|].
    by rewrite report_loop_ok. }
  assert (Halert : ch ≠ no_changes → (generate_alert ch).2 = Ok true).
  { intros Hne. by rewrite (generate_alert_True ch Hne Hall). }
  split_and!; [|done|].
  - destruct (decide ((length (modified ch) + length (added ch)
                       + length (deleted ch))%nat = 0%nat)) as [Hz|Hnz].
    + apply no_changes_iff in Hz as ->. by exists false.
    + rewrite no_changes_iff in Hnz. exists true. by apply Halert.
  - intros Hne. split; [by apply Halert|].
    unfold monitor_cycle. rewrite Hcheck. cbn beta iota zeta.
    by rewrite (generate_alert_True ch Hne Hall).
Qed.

End sliceable.

(** ** Comparing two scans in both directions *)

Lemma filter_ext_elem {A} (P Q : A → Prop) `{!∀ x, Decision (P x)}
    `{!∀ x, Decision (Q x)} (l : list A) :
  (∀ x, x ∈ l → P x ↔ Q x) → filter P l = filter Q l.
Proof.
  induction l as [|x l IH]; intros Hext; [done|].
  rewrite !filter_cons.
  rewrite IH by (intros y Hy; apply Hext; by apply list_elem_of_further).
  pose proof (Hext x (list_elem_of_here _ _)).
  repeat case_decide; tauto || done.
Qed.

Section reversal.
Variable sha256_hexdigest : list byte → string.
Implicit Types (self : FileIntegrityMonitor) (fs : filesystem)
  (A B cur : dict Info.t) (bl : dict json) (ch : Changes) (p : string).

Lemma modified_between_scans self A B chAB chBA p :
  NoDup (keys A) →
  (∀ q, q ∈ keys B → os_path_basename q ∉ ignore_files self) →
  compare_states (set_baseline self (baseline_of_scan A)) B = Ok chAB →
  compare_states (set_baseline self (baseline_of_scan B)) A = Ok chBA →
  in_modified chAB p → in_modified chBA p.
Proof.
  intros HndA HignB HAB HBA.
  destruct (compare_states_spec (set_baseline self (baseline_of_scan A)) B
              (prod_map id Info.to_json <$> A))
    as (ch & Hch & HmAB & _); [done|apply (baseline_of_scan_valid A)|].
  rewrite HAB in Hch. injection Hch as <-.
  destruct (compare_states_spec (set_baseline self (baseline_of_scan B)) A
              (prod_map id Info.to_json <$> B))
    as (ch & Hch & HmBA & _); [done|apply (baseline_of_scan_valid B)|].
  rewrite HBA in Hch. injection Hch as <-.
  intros (e & -> & He)%list_elem_of_fmap.
  apply HmAB in He as (info & ciB & Hin & _ & HB & Hoh & _ & Hne & _).
  apply elem_of_baseline_of_scan in Hin as (ciA & HA & ->).
  unfold getitem, dict_getitem in Hoh. simpl in Hoh. injection Hoh as Hoh.
  rewrite <-Hoh in Hne. simpl in Hne.
  apply list_elem_of_fmap.
  exists {| Modified.file := Modified.file e;
            Modified.old_hash := JStr (Info.hash ciB);
            Modified.new_hash := Info.hash ciA;
            Modified.old_size := JNum (Int (Info.size ciB));
            Modified.new_size := Info.size ciA |}.
  split; [done|]. apply HmBA. exists (Info.to_json ciB), ciA.
  cbn [Modified.file Modified.old_hash Modified.new_hash Modified.old_size
       Modified.new_size set_baseline ignore_files].
  split_and!; try done.
  - apply elem_of_baseline_of_scan. exists ciB. split; [|done].
    by apply dict_get_Some_elem.
  - apply HignB. apply dict_get_is_Some. eauto.
  - by apply dict_get_NoDup.
  - simpl. apply negb_true_iff, bool_decide_eq_false.
    apply negb_true_iff, bool_decide_eq_false in Hne. congruence.
Qed.

(** X17.  Two scans by the same monitor, compared in both directions.
    What is added going from the first to the second is what is deleted
    going back, in the same order, and the other way round; a path is
    modified in one direction exactly when it is in the other. *)
Theorem check_changes_reversal self fs1 fs2 directory A B :
  valid_root fs1 directory = true →
  valid_root fs2 directory = true →
  scan_directory sha256_hexdigest self fs1 directory = Ok A →
  scan_directory sha256_hexdigest self fs2 directory = Ok B →
  ∃ chAB chBA,
    check_changes sha256_hexdigest (set_baseline self (baseline_of_scan A))
                  fs2 directory = Ok (chAB, B) ∧
    check_changes sha256_hexdigest (set_baseline self (baseline_of_scan B))
                  fs1 directory = Ok (chBA, A) ∧
    Added.file <$> added chAB = deleted chBA ∧
    deleted chAB = Added.file <$> added chBA ∧
    (∀ p, in_modified chAB p ↔ in_modified chBA p).
Proof.
  intros Hroot1 Hroot2 HA HB.
  pose proof (scan_directory_NoDup _ _ _ _ _ HA) as HndA.
  pose proof (scan_directory_NoDup _ _ _ _ _ HB) as HndB.
  assert (HignA : ∀ q, q ∈ keys A → os_path_basename q ∉ ignore_files self).
  { intros q Hq Hign.
    by apply (scan_directory_not_excluded _ self fs1 directory A q Hroot1 HA);
      [left|]. }
  assert (HignB : ∀ q, q ∈ keys B → os_path_basename q ∉ ignore_files self).
  { intros q Hq Hign.
    by apply (scan_directory_not_excluded _ self fs2 directory B q Hroot2 HB);
      [left|]. }
  destruct (compare_states_order (set_baseline self (baseline_of_scan A)) B
              (prod_map id Info.to_json <$> A))
    as (chAB & HAB & HdAB & HaAB & _); [done|apply (baseline_of_scan_valid A)|].
  destruct (compare_states_order (set_baseline self (baseline_of_scan B)) A
              (prod_map id Info.to_json <$> B))
    as (chBA & HBA & HdBA & HaBA & _); [done|apply (baseline_of_scan_valid B)|].
  rewrite keys_baseline_of_scan in HdAB, HaAB, HdBA, HaBA.
  cbn [set_baseline ignore_files] in HdAB, HdBA.
  exists chAB, chBA. split_and!.
  - by apply check_changes_Ok.
  - by apply check_changes_Ok.
  - rewrite HaAB, HdBA. apply filter_ext_elem. intros q Hq.
    specialize (HignB q Hq). tauto.
  - rewrite HdAB, HaBA. apply filter_ext_elem. intros q Hq.
    specialize (HignA q Hq). tauto.
  - intros p. split.
    + by apply (modified_between_scans self A B chAB chBA p).
    + by apply (modified_between_scans self B A chBA chAB p).
Qed.

End reversal.

(** * The scenario, checked *)

Import Scenario.

Example scan_before_run :
  scan_directory digest fim (at_data before) "/data" = Ok scan_before.
Proof. vm_compute. reflexivity. Qed.

Example scan_after_run :
  scan_directory digest fim (at_data after) "/data" = Ok scan_after.
Proof. vm_compute. reflexivity. Qed.

Example check_changes_run :
  check_changes digest fim_loaded (at_data after) "/data"
  = Ok (changes_after, scan_after).
Proof. vm_compute. reflexivity. Qed.

(** The classification at work on the scenario: the changeset exists and
    its deleted list is the one the differ calls for. *)
Lemma check_changes_classifies_witness :
  ∃ ch,
    check_changes digest fim_loaded (at_data after) "/data"
    = Ok (ch, scan_after) ∧
    (∀ p, p ∈ deleted ch ↔
          spec_deleted fim_loaded (prod_map id Info.to_json <$> scan_before)
                       scan_after p).
Proof.
  destruct (check_changes_classifies digest fim_loaded (at_data after) "/data"
              scan_after (prod_map id Info.to_json <$> scan_before))
    as (ch & Hrun & _ & Hdeleted & _);
    [vm_compute; reflexivity..|].
  exists ch. split; assumption.
Defined.

(** C2 as stated fails: [temp.txt] is in the baseline, is not in the
    scan (the scanner ignores it), and is in none of the three
    sequences, where the stated partition wants it in exactly one. *)
Lemma partition_counterexample :
  ∃ ch,
    check_changes digest fim_ignoring (at_data with_temp) "/data" = Ok (ch, []) ∧
    ¬ partitions [("temp.txt", Info.to_json (record "draft" 5))] [] ch.
Proof.
  exists no_changes. split; [vm_compute; reflexivity|].
  intros Hpart. destruct (Hpart "temp.txt") as [_ Hone].
  { left. apply list_elem_of_here. }
  destruct Hone as [(H & _)|[(_ & H & _)|(_ & _ & H)]].
  - by intros (_ & ci & ? & _).
  - by apply elem_of_nil in H.
  - by apply elem_of_nil in H.
  - by apply elem_of_nil in H.
Qed.

(** On the same input the partition that sets ignored baseline paths
    apart holds. *)
Lemma check_changes_partitions_unignored_witness :
  ∃ ch,
    check_changes digest fim_ignoring (at_data with_temp) "/data" = Ok (ch, []) ∧
    partitions_unignored fim_ignoring
      [("temp.txt", Info.to_json (record "draft" 5))] [] ch.
Proof.
  destruct (check_changes_partitions_unignored digest fim_ignoring
              (at_data with_temp) "/data" []
              [("temp.txt", Info.to_json (record "draft" 5))])
    as (ch & Hrun & Hpart & _);
    [vm_compute; reflexivity..|].
  exists ch. split; assumption.
Defined.

(** The baseline of the scenario, saved to a fresh file and loaded
    back. *)
Lemma save_load_roundtrip_witness :
  ∃ disk',
    save_baseline fim_loaded blank_disk = (true, disk') ∧
    load_baseline fim disk' = (Ok (true, None), fim_loaded) ∧
    create_baseline digest fim (at_data before) "/data" blank_disk
    = (true, fim_loaded, disk').
Proof.
  destruct (save_load_roundtrip digest fim fim scan_before blank_disk)
    as (disk' & Hsave & Hload & Hcreate);
    [compute_done | reflexivity | reflexivity |].
  exists disk'. split_and!; [exact Hsave | exact Hload |].
  apply Hcreate; [vm_compute; reflexivity | discriminate].
Defined.

(** [.git/config] changed between the two scans and is reported
    nowhere. *)
Lemma excluded_paths_never_reported_witness :
  (".git/config" ∉ keys scan_before) ∧ (".git/config" ∉ keys scan_after) ∧
  ∃ ch,
    check_changes digest fim_loaded (at_data after) "/data"
    = Ok (ch, scan_after) ∧
    in_none ch ".git/config".
Proof.
  destruct (excluded_paths_never_reported digest fim (at_data before)
              (at_data after) "/data" scan_before scan_after ".git/config")
    as (_ & Hbase & Hcur & Hch); [vm_compute; reflexivity..| |by split_and!].
  right. exists [".git"], "config".
  split; [reflexivity|]. split; [by repeat constructor|].
  by constructor.
Defined.

(** The first scan: every record has a hash, and the file that cannot
    be read has no entry. *)
Lemma scan_records_have_hash_witness :
  (∀ p info, (p, info) ∈ scan_before → Info.hash info ≠ "") ∧
  ("locked.bin" ∉ keys scan_before).
Proof.
  destruct (scan_records_have_hash digest fim (at_data before) "/data"
              scan_before) as [Hhash Hskip]; [vm_compute; reflexivity..|].
  split.
  - intros p info Hin. by destruct (Hhash p info Hin).
  - apply (Hskip before [] "locked.bin" unreadable); vm_compute; reflexivity.
Defined.

(** Scanning a directory that does not exist. *)
Lemma scan_directory_bad_root_witness :
  scan_directory digest fim (at_data before) "/nowhere" = Ok [] ∧
  _validate_directory (at_data before) "/nowhere"
  = Raise (ValueError "Directory does not exist: /nowhere").
Proof.
  apply (scan_directory_bad_root digest fim (at_data before) "/nowhere").
  intros entries. vm_compute. discriminate.
Defined.

(** The three files of the scenario that cannot be hashed. *)
Lemma calculate_hash_skips_witness :
  calculate_hash digest fim unreadable = Ok None ∧
  calculate_hash digest fim vanished = Ok None ∧
  calculate_hash digest fim oversized = Ok None.
Proof.
  split_and!.
  - destruct (calculate_hash_skips digest fim unreadable) as (_ & _ & Hread & _).
    apply (Hread 3 (PermissionError "Permission denied")); reflexivity.
  - destruct (calculate_hash_skips digest fim vanished) as (_ & Hsize & _).
    apply (Hsize (FileNotFoundError "No such file or directory")); reflexivity.
  - destruct (calculate_hash_skips digest fim oversized) as (_ & _ & _ & Hbig & _).
    apply (Hbig 524288001); reflexivity.
Defined.

(** Loading a baseline whose only entry lacks its [size]. *)
Lemma load_baseline_rejects_bad_schema_witness :
  load_baseline fim sizeless_disk
  = (Ok (false, Some "Invalid baseline format: Missing required keys for a.txt"),
     set_baseline fim sizeless) ∧
  monitor_once digest fim (at_data after) "/data" sizeless_disk
  = (Ok None, set_baseline fim sizeless).
Proof.
  destruct (load_baseline_rejects_bad_schema digest fim sizeless_disk sizeless)
    as (msg & Hload & _ & Hstop); [reflexivity | reflexivity | |].
  - right. eexists _, "a.txt", _. split; [reflexivity|].
    split; [apply list_elem_of_here|].
    exists "size". split; [compute_done | compute_done].
  - split; [reflexivity | apply Hstop].
Defined.

(** Creating a baseline for a directory that does not exist. *)
Lemma create_baseline_empty_scan_witness :
  create_baseline digest fim (at_data before) "/nowhere" blank_disk
  = (false, fim, blank_disk).
Proof.
  apply (create_baseline_empty_scan digest fim (at_data before) "/nowhere"
           blank_disk).
  vm_compute. reflexivity.
Defined.

(** A baseline entry without a hash makes the comparison raise
    [KeyError]; the caller sees an empty changeset. *)
Lemma check_changes_hides_errors_witness :
  check_changes_attempt digest fim_broken (at_data after) "/data"
  = Raise (KeyError "hash") ∧
  check_changes digest fim_broken (at_data after) "/data" = Ok (no_changes, []).
Proof.
  split; [vm_compute; reflexivity|].
  apply (check_changes_hides_errors digest fim_broken (at_data after) "/data"
           (KeyError "hash")); vm_compute; reflexivity.
Defined.

(** The second tree of the scenario, checked against its own scan. *)
Lemma check_changes_own_scan_witness :
  check_changes digest (set_baseline fim (baseline_of_scan scan_after))
                (at_data after) "/data"
  = Ok (no_changes, scan_after).
Proof.
  apply (check_changes_own_scan digest fim (at_data after) "/data" scan_after).
  vm_compute. reflexivity.
Defined.

(** Nothing interrupts the calls on the first tree of the scenario: the
    scan and the check return. *)
Lemma only_interrupts_escape_witness :
  ∃ cur ch,
    scan_directory digest fim_loaded (at_data before) "/data" = Ok cur ∧
    check_changes digest fim_loaded (at_data before) "/data" = Ok ch.
Proof.
  destruct (only_interrupts_escape digest fim_loaded (at_data before) "/data")
    as (_ & _ & Hreturns).
  apply Hreturns. vm_compute. reflexivity.
Defined.

(** [sub/x.txt] in the second scan of the scenario. *)
Lemma scan_directory_filters_witness :
  startswith_dot (os_path_basename "sub/x.txt") = false ∧
  os_path_basename "sub/x.txt" ≠ os_path_basename (baseline_file fim).
Proof.
  destruct (scan_directory_filters digest fim (at_data after) "/data"
              scan_after "sub/x.txt") as (Hdot & Hbase & _);
    [vm_compute; reflexivity | vm_compute; reflexivity | compute_done |].
  by split.
Defined.


Import Scenario2.

(** A file whose size is exactly the limit gets a record. *)
Lemma get_file_info_Some_iff_witness :
  get_file_info digest fim at_limit
  = Ok (Some {| Info.hash := digest []; Info.size := 524288000;
                Info.modified := time; Info.created := time |}).
Proof.
  apply (get_file_info_Some_iff digest fim at_limit).
  eexists _, 524288000, [].
  split_and!; try reflexivity; try (vm_compute; discriminate).
Defined.

(** Loading when there is no baseline file. *)
Lemma load_baseline_outcomes_witness :
  ∃ msg, load_baseline fim_loaded blank_disk = (Ok (false, Some msg), fim_loaded).
Proof.
  destruct (load_baseline_outcomes fim_loaded blank_disk) as (_ & _ & Hfail).
  apply Hfail. left. reflexivity.
Defined.

(** Creating a baseline on a file that cannot be read back: the old file
    is gone and the call reports failure. *)
Lemma create_baseline_outcomes_witness :
  create_baseline digest fim (at_data before) "/data" write_only_disk
  = (false, fim_loaded,
     {| stored := Some (JsonText (baseline_of_scan scan_before));
        may_read := false; may_write := true |}).
Proof.
  apply (create_baseline_outcomes digest fim (at_data before) "/data"
           write_only_disk scan_before);
    [vm_compute; reflexivity | discriminate].
Defined.

(** The scenario from end to end: baseline created on the first tree,
    one check on the second. *)
Lemma create_then_monitor_once_witness :
  ∃ disk',
    create_baseline digest fim (at_data before) "/data" blank_disk
    = (true, fim_loaded, disk') ∧
    monitor_once digest fim (at_data after) "/data" disk'
    = (Ok (Some changes_after), fim_loaded).
Proof.
  destruct (create_then_monitor_once digest fim (at_data before)
              (at_data after) "/data" blank_disk scan_before scan_after)
    as (disk' & ch & Hcreate & Hcheck & Honce & _);
    [vm_compute; reflexivity | discriminate | reflexivity | reflexivity
    | vm_compute; reflexivity |].
  exists disk'. split; [exact Hcreate|].
  assert (ch = changes_after) as <-.
  { assert (Hrun : check_changes digest fim_loaded (at_data after) "/data"
                   = Ok (changes_after, scan_after))
      by (vm_compute; reflexivity).
    unfold fim_loaded in Hrun. congruence. }
  apply (Honce (baseline fim)).
Defined.

(** The lists of the scenario, as the order theorem gives them. *)
Lemma changes_in_order_witness :
  ∃ ch,
    check_changes digest fim_loaded (at_data after) "/data"
    = Ok (ch, scan_after) ∧
    deleted ch = ["b.txt"] ∧ Added.file <$> added ch = ["c.txt"].
Proof.
  destruct (changes_in_order digest fim_loaded (at_data after) "/data"
              scan_after (prod_map id Info.to_json <$> scan_before))
    as (ch & Hrun & Hdeleted & Hadded & _);
    [vm_compute; reflexivity..|].
  exists ch. split_and!; [exact Hrun | |].
  - rewrite Hdeleted. vm_compute. reflexivity.
  - rewrite Hadded. vm_compute. reflexivity.
Defined.

Import Scenario3.

(** The alert for the changeset of the scenario. *)
Lemma generate_alert_outcomes_witness :
  generate_alert changes_after
  = (["INTEGRITY VIOLATION - 3 change(s) detected"; "Modified: a.txt";
      "Added: c.txt"; "Deleted: b.txt"], Ok true).
Proof.
  destruct (generate_alert_outcomes changes_after) as (_ & _ & Halert & _).
  rewrite Halert; [vm_compute; reflexivity | discriminate |].
  by repeat constructor.
Defined.

(** Two cycles over the second tree without updating: the same alert
    twice, the baseline and its file untouched. *)
Lemma monitoring_without_update_witness :
  (monitor_realtime digest fim "/data" 5 false saved_disk
                    [at_data after; at_data after]).1
  = {| monitor := set_monitoring fim_loaded true; baseline_disk := saved_disk;
       alerts := [changes_after; changes_after] |} ∧
  baseline (monitor (monitor_realtime digest fim "/data" 5 false saved_disk
                                      [at_data after; at_data after]).1)
  = baseline (load_baseline fim saved_disk).2.
Proof.
  split; [vm_compute; reflexivity|].
  apply (monitoring_without_update digest fim "/data" 5 saved_disk
           [at_data after; at_data after]).
Defined.

(** With updating, the first cycle over the second tree absorbs the
    changes; the second finds the loop at rest. *)
Lemma monitor_cycle_settles_witness :
  monitor_cycle digest "/data" true started (at_data after) = (updated, None) ∧
  monitor_cycle digest "/data" true updated (at_data after) = (updated, None).
Proof.
  assert (Hfirst : monitor_cycle digest "/data" true started (at_data after)
                   = (updated, None)) by (vm_compute; reflexivity).
  split; [exact Hfirst|].
  exact (monitor_cycle_settles digest "/data" started (at_data after) updated
           Hfirst).
Defined.

(** The directory is gone: both files of the baseline that are not
    ignored are reported deleted, and the baseline is emptied. *)
Lemma monitor_cycle_directory_gone_witness :
  ∃ now',
    monitor_cycle digest "/nowhere" true started (at_data after) = (now', None) ∧
    baseline (monitor now') = JObj [] ∧
    stored (baseline_disk now') = Some (JsonText (JObj [])).
Proof.
  destruct (monitor_cycle_directory_gone digest "/nowhere" started
              (at_data after) (prod_map id Info.to_json <$> scan_before))
    as (now' & Hcycle & Hmem & Hdisk & _).
  - intros entries. vm_compute. discriminate.
  - reflexivity.
  - exists "a.txt". split; [compute_done|]. vm_compute. discriminate.
  - reflexivity.
  - exists now'. by split_and!.
Defined.

(** A baseline with a number for the hash of [a.txt] passes the checks
    of [load_baseline] and then blocks every cycle. *)
Lemma unsliceable_hash_blocks_cycle_witness :
  validate_baseline numeric_hash = Ok () ∧
  monitor_cycle digest "/data" true started_numeric (at_data after)
  = (started_numeric, None).
Proof.
  split; [reflexivity|].
  destruct (unsliceable_hash_blocks_cycle digest "/data" true started_numeric
              (at_data after)
              [("a.txt", JObj [("hash", JNum (Int 7)); ("size", JNum (Int 5));
                               ("modified", JNum time);
                               ("created", JNum time)])]
              scan_after "a.txt"
              (JObj [("hash", JNum (Int 7)); ("size", JNum (Int 5));
                     ("modified", JNum time); ("created", JNum time)])
              (JNum (Int 7)))
    as (ch & log & e & _ & _ & _ & Hcycle);
    [vm_compute; reflexivity | reflexivity | reflexivity
    | apply list_elem_of_here | reflexivity | discriminate | compute_done
    | vm_compute; discriminate | exact Hcycle].
Defined.

(** An interval of zero seconds becomes one second. *)
Lemma monitor_realtime_interval_witness :
  (monitor_realtime digest fim "/data" 0 false saved_disk []).2 = 1.
Proof.
  destruct (monitor_realtime_interval digest fim "/data" 0 false saved_disk [])
    as [Hrange _]; [vm_compute; reflexivity|].
  vm_compute. reflexivity.
Defined.

(** The baseline of the scenario was written by the program: the
    changeset of the second tree is alerted and reported. *)
Lemma string_hashes_always_alert_witness :
  (generate_alert changes_after).2 = Ok true ∧
  (report_changes changes_after).2 = Ok () ∧
  monitor_cycle digest "/data" false started (at_data after)
  = ({| monitor := fim_loaded; baseline_disk := saved_disk;
        alerts := [changes_after] |}, None).
Proof.
  destruct (string_hashes_always_alert digest "/data" started (at_data after)
              changes_after scan_after) as (_ & Hreport & Hcycle).
  - apply (baseline_of_scan_sliceable scan_before).
  - vm_compute. reflexivity.
  - destruct Hcycle as [Halert Hcycle]; [discriminate|]. by split_and!.
Defined.

(** The two trees of the scenario, compared forwards and backwards. *)
Lemma check_changes_reversal_witness :
  ∃ chAB chBA,
    check_changes digest (set_baseline fim (baseline_of_scan scan_before))
                  (at_data after) "/data" = Ok (chAB, scan_after) ∧
    check_changes digest (set_baseline fim (baseline_of_scan scan_after))
                  (at_data before) "/data" = Ok (chBA, scan_before) ∧
    Added.file <$> added chAB = deleted chBA ∧
    deleted chAB = Added.file <$> added chBA ∧
    (∀ p, in_modified chAB p ↔ in_modified chBA p).
Proof.
  apply (check_changes_reversal digest fim (at_data before) (at_data after)
           "/data" scan_before scan_after); vm_compute; reflexivity.
Defined.
